(** * Fast-response k-server on a line: the Python core, embedded and verified

    The development follows [Fastkserver.py] (and its sibling copy): Python
    integers are [Z], lists are [list] indexed the way Python indexes them
    (negative indices wrap once, anything else out of range raises), the
    float [inf] of the DP table is a constructor of its own, and every loop
    is a fold over the [range] it iterates. *)

From stdpp Require Import base numbers option list sorting.
From Stdlib Require Import ZArith Lia.

Open Scope Z_scope.

(** ** Outcomes of running Python code *)

Inductive result (A : Type) : Type :=
  | Ok (a : A)
  | IndexError
  | OutOfFuel.
Arguments Ok {A} a.
Arguments IndexError {A}.
Arguments OutOfFuel {A}.

#[global] Instance result_ret : MRet result := @Ok.
#[global] Instance result_bind : MBind result := λ A B f m,
  match m with
  | Ok a => f a
  | IndexError => IndexError
  | OutOfFuel => OutOfFuel
  end.
#[global] Instance result_fmap : FMap result := λ A B f m,
  match m with
  | Ok a => Ok (f a)
  | IndexError => IndexError
  | OutOfFuel => OutOfFuel
  end.

(** ** Python lists *)

(** [range(a, b)] *)
Fixpoint range_from (a : Z) (len : nat) : list Z :=
  match len with
  | O => []
  | S len' => a :: range_from (a + 1) len'
  end.

Definition range (a b : Z) : list Z := range_from a (Z.to_nat (b - a)).

(** [[x] * m] *)
Definition repeat_list {A} (x : A) (m : Z) : list A := replicate (Z.to_nat m) x.

(** The position a subscript [l[i]] denotes in a list of length [len]. *)
Definition index_of (len : nat) (i : Z) : result nat :=
  let i' := if i <? 0 then i + Z.of_nat len else i in
  if (0 <=? i') && (i' <? Z.of_nat len) then Ok (Z.to_nat i') else IndexError.

(** [l[i]] *)
Definition getitem {A} (l : list A) (i : Z) : result A :=
  p ← index_of (length l) i;
  match l !! p with
  | Some a => Ok a
  | None => IndexError
  end.

(** [l[i] = v] *)
Definition setitem {A} (l : list A) (i : Z) (v : A) : result (list A) :=
  p ← index_of (length l) i;
  Ok (<[p := v]> l).

(** [T[i][j]] *)
Definition getitem2 {A} (T : list (list A)) (i j : Z) : result A :=
  row ← getitem T i;
  getitem row j.

(** [T[i][j] = v]: the row object [T[i]] is fetched and updated in place;
    the rows of every table built here are distinct objects. *)
Definition setitem2 {A} (T : list (list A)) (i j : Z) (v : A) : result (list (list A)) :=
  row ← getitem T i;
  row' ← setitem row j v;
  setitem T i row'.

(** [for x in xs: body], the loop state threaded through. *)
Fixpoint for_each {S X} (xs : list X) (body : X → S → result S) (s : S) : result S :=
  match xs with
  | [] => Ok s
  | x :: xs' => s' ← body x s; for_each xs' body s'
  end.

(** ** Values of the DP table: a Python int, or the float [inf] *)

Inductive cost_val : Type :=
  | Fin (v : Z)
  | Inf.

(** [d + c] for a table entry [d] and an int [c]; [inf] absorbs the int.
    (The DP loops only ever add to finite entries, see [dp_scan_spec].) *)
Definition cost_add (d : cost_val) (c : Z) : cost_val :=
  match d with
  | Fin v => Fin (v + c)
  | Inf => Inf
  end.

(** [a < b] *)
Definition cost_ltb (a b : cost_val) : bool :=
  match a, b with
  | Fin x, Fin y => x <? y
  | Fin _, Inf => true
  | Inf, _ => false
  end.

Module Fastkserver.

(** [find_weighted_median(i, j, W)]; the scan is the [for ... break] loop. *)
Fixpoint median_scan (W : list Z) (target : Z) (ps : list Z) (m : Z) : result Z :=
  match ps with
  | [] => Ok m
  | pos :: ps' =>
      Wpos ← getitem W pos;
      if Wpos >=? target then Ok pos
      else median_scan W target ps' m
  end.

Definition find_weighted_median (i j : Z) (W : list Z) : result Z :=
  Wj ← getitem W j;
  Wi1 ← getitem W (i - 1);
  let totalW := Wj - Wi1 in
  Wi1' ← getitem W (i - 1);
  let target := Wi1' + (totalW + 1) `div` 2 in
  let m := i in
  median_scan W target (range i (j + 1)) m.

(** The three list objects the prefix-sum loop touches. *)
Record prefix_state : Type := PrefixState {
  st_w : list Z;
  st_W : list Z;
  st_XW : list Z
}.

Definition prefix_body (i : Z) (s : prefix_state) : result prefix_state :=
  Wp ← getitem (st_W s) (i - 1);
  wi ← getitem (st_w s) i;
  W' ← setitem (st_W s) i (Wp + wi);
  XWp ← getitem (st_XW s) (i - 1);
  wi' ← getitem (st_w s) i;
  XW' ← setitem (st_XW s) i (XWp + i * wi');
  Ok (PrefixState (st_w s) W' XW').

Definition prefix_stage (n : Z) (w : list Z) : result prefix_state :=
  let W := repeat_list 0 (n + 1) in
  let XW := repeat_list 0 (n + 1) in
  for_each (range 1 (n + 1)) prefix_body (PrefixState w W XW).

(** One cell of the interval-cost loop: [cost[i][j]] and [best_server[i][j]]. *)
Definition cost_body (W XW : list Z) (i j : Z)
    (s : list (list Z) * list (list Z)) : result (list (list Z) * list (list Z)) :=
  let '(cost, best_server) := s in
  m ← find_weighted_median i j W;
  best_server' ← setitem2 best_server i j m;
  Left ← (if i <=? m - 1 then
            Wm1 ← getitem W (m - 1);
            Wi1 ← getitem W (i - 1);
            let WL := Wm1 - Wi1 in
            XWm1 ← getitem XW (m - 1);
            XWi1 ← getitem XW (i - 1);
            let XL := XWm1 - XWi1 in
            Ok (m * WL - XL)
          else Ok 0);
  Right ← (if m + 1 <=? j then
             Wj ← getitem W j;
             Wm ← getitem W m;
             let WR := Wj - Wm in
             XWj ← getitem XW j;
             XWm ← getitem XW m;
             let XR := XWj - XWm in
             Ok (XR - m * WR)
           else Ok 0);
  cost' ← setitem2 cost i j (Left + Right);
  Ok (cost', best_server').

(** [[[x] * (n + 1) for _ in range(rows)]] *)
Definition new_table {A} (x : A) (n rows : Z) : list (list A) :=
  (λ _, repeat_list x (n + 1)) <$> range 0 rows.

Definition cost_stage (n : Z) (W XW : list Z) : result (list (list Z) * list (list Z)) :=
  let cost := new_table 0 n (n + 1) in
  let best_server := new_table 0 n (n + 1) in
  for_each (range 1 (n + 1))
    (λ i s, for_each (range i (n + 1)) (cost_body W XW i) s)
    (cost, best_server).

(** The innermost DP loop: the scan over split points [i]. *)
Definition dp_scan_body (DP : list (list cost_val)) (cost : list (list Z)) (t j i : Z)
    (s : cost_val * Z) : result (cost_val * Z) :=
  let '(best_val, best_i) := s in
  d ← getitem2 DP (t - 1) i;
  c ← getitem2 cost (i + 1) j;
  let val := cost_add d c in
  if cost_ltb val best_val then Ok (val, i) else Ok (best_val, best_i).

Definition dp_cell (cost : list (list Z)) (t j : Z)
    (s : list (list cost_val) * list (list Z)) : result (list (list cost_val) * list (list Z)) :=
  let '(DP, choice) := s in
  if j <? t then Ok (DP, choice)
  else
    '(best_val, best_i) ← for_each (range (t - 1) j) (dp_scan_body DP cost t j) (Inf, -1);
    DP' ← setitem2 DP t j best_val;
    choice' ← setitem2 choice t j best_i;
    Ok (DP', choice').

Definition dp_first_row (cost : list (list Z)) (j : Z)
    (s : list (list cost_val) * list (list Z)) : result (list (list cost_val) * list (list Z)) :=
  let '(DP, choice) := s in
  c ← getitem2 cost 1 j;
  DP' ← setitem2 DP 1 j (Fin c);
  choice' ← setitem2 choice 1 j 0;
  Ok (DP', choice').

Definition dp_stage (n k : Z) (cost : list (list Z))
    : result (list (list cost_val) * list (list Z)) :=
  let DP := new_table Inf n (k + 1) in
  let choice := new_table (-1) n (k + 1) in
  DP ← setitem2 DP 0 0 (Fin 0);
  s ← for_each (range 1 (n + 1)) (dp_first_row cost) (DP, choice);
  for_each (range 2 (k + 1))
    (λ t s, for_each (range 1 (n + 1)) (dp_cell cost t) s) s.

(** [while t > 0]: [t] drops by one per round, so [Z.to_nat t] rounds of
    fuel are enough (lemma [backtrack_fuel]). *)
Fixpoint backtrack (fuel : nat) (choice : list (list Z)) (t j : Z)
    (segments : list (Z * Z)) : result (list (Z * Z)) :=
  if t >? 0 then
    match fuel with
    | O => OutOfFuel
    | S fuel' =>
        i ← getitem2 choice t j;
        let L := i + 1 in
        let R := j in
        backtrack fuel' choice (t - 1) i (segments ++ [(L, R)])
    end
  else Ok segments.

Definition position_body (best_server : list (list Z)) (seg : Z * Z)
    (server_positions : list (option Z)) : result (list (option Z)) :=
  let '(L, R) := seg in
  if L <=? R then
    b ← getitem2 best_server L R;
    Ok (server_positions ++ [Some b])
  else Ok (server_positions ++ [None]).

(** What a call returns: [(min_total_cost, server_positions, segments)]. *)
Definition output : Type := cost_val * list (option Z) * list (Z * Z).

(** The whole call; next to the returned triple it gives the list object
    [w] as the caller finds it afterwards. *)
Definition run (n k : Z) (w : list Z) : result (output * list Z) :=
  s ← prefix_stage n w;
  '(cost, best_server) ← cost_stage n (st_W s) (st_XW s);
  '(DP, choice) ← dp_stage n k cost;
  min_total_cost ← getitem2 DP k n;
  segments ← backtrack (Z.to_nat k) choice k n [];
  let segments := reverse segments in
  server_positions ← for_each segments (position_body best_server) [];
  Ok ((min_total_cost, server_positions, segments), st_w s).

Definition fast_response_k_server (n k : Z) (w : list Z) : result output :=
  fst <$> run n k w.

End Fastkserver.

(** The sibling copy of the algorithm (the file headed "Fast k server.py").
    It is embedded on its own, statement by statement; its tables are built
    by nested [append] loops instead of list comprehensions. *)
Module FastKServerCopy.

Fixpoint median_scan (W : list Z) (target : Z) (ps : list Z) (m : Z) : result Z :=
  match ps with
  | [] => Ok m
  | pos :: ps' =>
      Wpos ← getitem W pos;
      if Wpos >=? target then Ok pos
      else median_scan W target ps' m
  end.

Definition find_weighted_median (i j : Z) (W : list Z) : result Z :=
  Wj ← getitem W j;
  Wi1 ← getitem W (i - 1);
  let totalW := Wj - Wi1 in
  Wi1' ← getitem W (i - 1);
  let target := Wi1' + (totalW + 1) `div` 2 in
  let m := i in
  median_scan W target (range i (j + 1)) m.

Record prefix_state : Type := PrefixState {
  st_w : list Z;
  st_W : list Z;
  st_XW : list Z
}.

Definition prefix_body (i : Z) (s : prefix_state) : result prefix_state :=
  Wp ← getitem (st_W s) (i - 1);
  wi ← getitem (st_w s) i;
  W' ← setitem (st_W s) i (Wp + wi);
  XWp ← getitem (st_XW s) (i - 1);
  wi' ← getitem (st_w s) i;
  XW' ← setitem (st_XW s) i (XWp + i * wi');
  Ok (PrefixState (st_w s) W' XW').

Definition prefix_stage (n : Z) (w : list Z) : result prefix_state :=
  let W := repeat_list 0 (n + 1) in
  let XW := repeat_list 0 (n + 1) in
  for_each (range 1 (n + 1)) prefix_body (PrefixState w W XW).

(** [T = []; for _ in range(rows): row = []; for _ in range(n + 1):
    row.append(x); T.append(row)] *)
Definition build_table {A} (x : A) (n rows : Z) : result (list (list A)) :=
  for_each (range 0 rows)
    (λ _ T,
       row ← for_each (range 0 (n + 1)) (λ _ row, Ok (row ++ [x])) [];
       Ok (T ++ [row]))
    [].

Definition cost_body (W XW : list Z) (i j : Z)
    (s : list (list Z) * list (list Z)) : result (list (list Z) * list (list Z)) :=
  let '(cost, best_server) := s in
  m ← find_weighted_median i j W;
  best_server' ← setitem2 best_server i j m;
  Left ← (if i <=? m - 1 then
            Wm1 ← getitem W (m - 1);
            Wi1 ← getitem W (i - 1);
            let WL := Wm1 - Wi1 in
            XWm1 ← getitem XW (m - 1);
            XWi1 ← getitem XW (i - 1);
            let XL := XWm1 - XWi1 in
            Ok (m * WL - XL)
          else Ok 0);
  Right ← (if m + 1 <=? j then
             Wj ← getitem W j;
             Wm ← getitem W m;
             let WR := Wj - Wm in
             XWj ← getitem XW j;
             XWm ← getitem XW m;
             let XR := XWj - XWm in
             Ok (XR - m * WR)
           else Ok 0);
  cost' ← setitem2 cost i j (Left + Right);
  Ok (cost', best_server').

Definition cost_stage (n : Z) (W XW : list Z) : result (list (list Z) * list (list Z)) :=
  cost ← build_table 0 n (n + 1);
  best_server ← build_table 0 n (n + 1);
  for_each (range 1 (n + 1))
    (λ i s, for_each (range i (n + 1)) (cost_body W XW i) s)
    (cost, best_server).

Definition dp_scan_body (DP : list (list cost_val)) (cost : list (list Z)) (t j i : Z)
    (s : cost_val * Z) : result (cost_val * Z) :=
  let '(best_val, best_i) := s in
  d ← getitem2 DP (t - 1) i;
  c ← getitem2 cost (i + 1) j;
  let val := cost_add d c in
  if cost_ltb val best_val then Ok (val, i) else Ok (best_val, best_i).

Definition dp_cell (cost : list (list Z)) (t j : Z)
    (s : list (list cost_val) * list (list Z)) : result (list (list cost_val) * list (list Z)) :=
  let '(DP, choice) := s in
  if j <? t then Ok (DP, choice)
  else
    '(best_val, best_i) ← for_each (range (t - 1) j) (dp_scan_body DP cost t j) (Inf, -1);
    DP' ← setitem2 DP t j best_val;
    choice' ← setitem2 choice t j best_i;
    Ok (DP', choice').

Definition dp_first_row (cost : list (list Z)) (j : Z)
    (s : list (list cost_val) * list (list Z)) : result (list (list cost_val) * list (list Z)) :=
  let '(DP, choice) := s in
  c ← getitem2 cost 1 j;
  DP' ← setitem2 DP 1 j (Fin c);
  choice' ← setitem2 choice 1 j 0;
  Ok (DP', choice').

Definition dp_stage (n k : Z) (cost : list (list Z))
    : result (list (list cost_val) * list (list Z)) :=
  DP ← build_table Inf n (k + 1);
  choice ← build_table (-1) n (k + 1);
  DP ← setitem2 DP 0 0 (Fin 0);
  s ← for_each (range 1 (n + 1)) (dp_first_row cost) (DP, choice);
  for_each (range 2 (k + 1))
    (λ t s, for_each (range 1 (n + 1)) (dp_cell cost t) s) s.

Fixpoint backtrack (fuel : nat) (choice : list (list Z)) (t j : Z)
    (segments : list (Z * Z)) : result (list (Z * Z)) :=
  if t >? 0 then
    match fuel with
    | O => OutOfFuel
    | S fuel' =>
        i ← getitem2 choice t j;
        let L := i + 1 in
        let R := j in
        backtrack fuel' choice (t - 1) i (segments ++ [(L, R)])
    end
  else Ok segments.

Definition position_body (best_server : list (list Z)) (seg : Z * Z)
    (server_positions : list (option Z)) : result (list (option Z)) :=
  let '(L, R) := seg in
  if L <=? R then
    b ← getitem2 best_server L R;
    Ok (server_positions ++ [Some b])
  else Ok (server_positions ++ [None]).

Definition run (n k : Z) (w : list Z)
    : result ((cost_val * list (option Z) * list (Z * Z)) * list Z) :=
  s ← prefix_stage n w;
  '(cost, best_server) ← cost_stage n (st_W s) (st_XW s);
  '(DP, choice) ← dp_stage n k cost;
  min_total_cost ← getitem2 DP k n;
  segments ← backtrack (Z.to_nat k) choice k n [];
  let segments := reverse segments in
  server_positions ← for_each segments (position_body best_server) [];
  Ok ((min_total_cost, server_positions, segments), st_w s).

Definition fast_response_k_server (n k : Z) (w : list Z)
    : result (cost_val * list (option Z) * list (Z * Z)) :=
  fst <$> run n k w.

End FastKServerCopy.

Import Fastkserver.

(** * The benchmark driver

    [make_weights] and [get_time_k_server] read as both files have them.
    They draw from [random] and read the clock: the two are the operations
    of a world the driver runs in, and every property below holds whatever
    that world answers. *)

(** What the driver can raise: what the core raises, and the [ValueError]
    of [random.randint] on an empty range. *)
Inductive exception : Type :=
  | index_error
  | value_error
  | out_of_fuel.

Inductive outcome (A : Type) : Type :=
  | Returns (a : A)
  | Raises (e : exception).
Arguments Returns {A} a.
Arguments Raises {A} e.

#[global] Instance outcome_ret : MRet outcome := @Returns.
#[global] Instance outcome_bind : MBind outcome := λ A B f m,
  match m with
  | Returns a => f a
  | Raises e => Raises e
  end.

(** A call into the core, seen from the driver. *)
Definition of_result {A} (r : result A) : outcome A :=
  match r with
  | Ok a => Returns a
  | IndexError => Raises index_error
  | OutOfFuel => Raises out_of_fuel
  end.

(** The world of the driver: [draw a b] is what [random.randint(a, b)]
    answers when [a ≤ b], [perf_counter_ns] what the clock reads; each
    leaves the world in a new state. *)
Class World (world : Type) : Type := {
  draw : Z → Z → world → Z * world;
  perf_counter_ns : world → Z * world
}.

(** [random.randint(a, b)]: a [ValueError] on an empty range. *)
Definition randint `{World world} (a b : Z) (g : world) : outcome (Z * world) :=
  if a <=? b then Returns (draw a b g) else Raises value_error.

(** The answers of [random.randint(a, b)] lie in [[a, b]]. *)
Definition draws_in_range `{World world} : Prop :=
  ∀ a b g, a ≤ b → a ≤ (draw a b g).1 ≤ b.

(** [for x in xs: body] in the driver. *)
Fixpoint for_each_o {S X} (xs : list X) (body : X → S → outcome S) (s : S) : outcome S :=
  match xs with
  | [] => Returns s
  | x :: xs' => s' ← body x s; for_each_o xs' body s'
  end.

Definition make_weights_body `{World world} (max_w i : Z) (s : list Z * world)
    : outcome (list Z * world) :=
  let '(w, g) := s in
  '(x, g) ← randint 1 max_w g;
  w ← of_result (setitem w i x);
  Returns (w, g).

(** [make_weights(n, max_w)] *)
Definition make_weights `{World world} (n max_w : Z) (g : world)
    : outcome (list Z * world) :=
  let w := repeat_list 0 (n + 1) in
  for_each_o (range 1 (n + 1)) (make_weights_body max_w) (w, g).

(** One round of the timing loop: the list object [w] is handed to the core
    and taken back as the core leaves it. *)
Definition timing_body `{World world} (n k : Z) (s : list Z * list Z * world)
    : outcome (list Z * list Z * world) :=
  let '(w, times, g) := s in
  let '(t1, g) := perf_counter_ns g in
  '(_, w) ← of_result (run n k w);
  let '(t2, g) := perf_counter_ns g in
  Returns (w, times ++ [t2 - t1], g).

Definition timing_loop `{World world} (n k reps : Z) (w : list Z) (g : world)
    : outcome (list Z * list Z * world) :=
  for_each_o (range 0 reps) (λ _, timing_body n k) (w, [], g).

(** [get_time_k_server(n, k, reps)]; [make_weights(n)] takes its default
    [max_w = 10], and [times.sort()] sorts integers in ascending order. *)
Definition get_time_k_server `{World world} (n k reps : Z) (g : world)
    : outcome (Z * world) :=
  '(w, g) ← make_weights n 10 g;
  '(_, times, g) ← timing_loop n k reps w g;
  let times := merge_sort Z.le times in
  t ← of_result (getitem times (Z.of_nat (length times) `div` 2));
  Returns (t, g).

(** A world to run the driver in: [random] always answers the lower
    bound, and the clock advances by the number of readings so far. *)
#[global] Instance counting_world : World (Z * Z) := {|
  draw := λ a b g, (a, g);
  perf_counter_ns := λ g, (g.1, (g.1 + g.2, g.2 + 1))
|}.

(** * The vocabulary of the specifications *)

(** A list read as an array [0..n] of the values of [f]. *)
Definition arr_is (l : list Z) (n : Z) (f : Z → Z) : Prop :=
  length l = Z.to_nat (n + 1) ∧ ∀ p, 0 ≤ p ≤ n → l !! Z.to_nat p = Some (f p).

(** The entry of a table at a non-negative row and column, if there is one. *)
Definition cell {A} (T : list (list A)) (i j : Z) : option A :=
  match T !! Z.to_nat i with
  | Some row => row !! Z.to_nat j
  | None => None
  end.

(** [T] has [r] rows of [c] entries each. *)
Definition shape {A} (r c : Z) (T : list (list A)) : Prop :=
  length T = Z.to_nat r ∧ Forall (λ row, length row = Z.to_nat c) T.

(** [l[p]] for [p ≥ 0], as a total function of the position. *)
Definition item (l : list Z) (p : Z) : Z := default 0 (l !! Z.to_nat p).

(** [f 1 + ... + f m] *)
Fixpoint psum (f : Z → Z) (m : nat) : Z :=
  match m with
  | O => 0
  | S m' => psum f m' + f (Z.of_nat (S m'))
  end.

(** [w[1] + ... + w[i]] and [1·w[1] + ... + i·w[i]]: what [W[i]] and
    [XW[i]] are to hold. *)
Definition Wsum (w : list Z) (i : Z) : Z := psum (item w) (Z.to_nat i).

Definition XWsum (w : list Z) (i : Z) : Z := psum (λ p, p * item w p) (Z.to_nat i).

(** The weights at positions [1..n] are non-negative. *)
Definition nonneg_weights (n : Z) (w : list Z) : Prop :=
  Forall (λ x, 0 ≤ x) (take (Z.to_nat n) (drop 1 w)).

(** [(total + 1) // 2] *)
Definition ceil_half (total : Z) : Z := (total + 1) `div` 2.

(** The [target] of the median scan, over prefix sums [A]. *)
Definition median_target (A : Z → Z) (i j : Z) : Z :=
  A (i - 1) + ceil_half (A j - A (i - 1)).

(** What the scan yields on any array: the first position reaching the
    target, or [i] when no position of the interval reaches it. *)
Definition scan_result (A : Z → Z) (i j m : Z) : Prop :=
  (i ≤ m ≤ j ∧ median_target A i j ≤ A m ∧ ∀ p, i ≤ p < m → A p < median_target A i j)
  ∨ (m = i ∧ ∀ p, i ≤ p ≤ j → A p < median_target A i j).

(** [m] is the weighted median of [[i,j]]: the first position whose prefix
    weight reaches the target. *)
Definition is_median (A : Z → Z) (i j m : Z) : Prop :=
  i ≤ m ≤ j ∧ median_target A i j ≤ A m ∧ ∀ p, i ≤ p < m → A p < median_target A i j.

(** The prefix-weight array of [w]: [W[0] = 0], [W[p] = W[p-1] + w[p]]. *)
Definition prefix_sum_array (n : Z) (w : list Z) : list Z :=
  Wsum w <$> range 0 (n + 1).

(** The value the code stores in [cost[i][j]] once the median [m] is known. *)
Definition cost_formula (A B : Z → Z) (i j m : Z) : Z :=
  (if i <=? m - 1 then m * (A (m - 1) - A (i - 1)) - (B (m - 1) - B (i - 1)) else 0)
  + (if m + 1 <=? j then (B j - B m) - m * (A j - A m) else 0).

(** The cell [(i, j)] of the finished tables [(cost, best_server)]. *)
Definition cost_cell_ok (A B : Z → Z) (s : list (list Z) * list (list Z)) (i j : Z) : Prop :=
  ∃ m, scan_result A i j m ∧ cell (snd s) i j = Some m ∧
       cell (fst s) i j = Some (cost_formula A B i j m).

(** The sum of a list of integers. *)
Definition sum_list_Z (l : list Z) : Z := foldr Z.add 0 l.

(** [Σ_{p=i}^{j} w[p]·|p-m|] *)
Definition weighted_distance (w : list Z) (i j m : Z) : Z :=
  sum_list_Z ((λ p, item w p * Z.abs (p - m)) <$> range i (j + 1)).

(** The minimum of [weighted_distance] over the candidates [m ∈ [i,j]]. *)
Definition brute_force_min (w : list Z) (i j : Z) : Z :=
  foldr Z.min (weighted_distance w i j i) (weighted_distance w i j <$> range i (j + 1)).

(** The closed form of the brute-force cost for a server inside the interval. *)
Definition closed_cost (w : list Z) (i j m : Z) : Z :=
  m * (2 * Wsum w m - Wsum w (i - 1) - Wsum w j)
  - 2 * XWsum w m + XWsum w (i - 1) + XWsum w j.

(** The integer held by a finite cell of [DP]. *)
Definition dval (DP : list (list cost_val)) (t j : Z) : Z :=
  match cell DP t j with
  | Some (Fin v) => v
  | _ => 0
  end.

(** The cell holds an integer, not [inf]. *)
Definition fin_cell (DP : list (list cost_val)) (t j : Z) : Prop :=
  ∃ v, cell DP t j = Some (Fin v).

(** [cost] read as a function on the intervals [1 ≤ i ≤ j ≤ n]. *)
Definition cost_is (n : Z) (cost : list (list Z)) (cf : Z → Z → Z) : Prop :=
  ∀ i j, 1 ≤ i ≤ j → j ≤ n → cell cost i j = Some (cf i j).

(** [v] is the least candidate [DP[t-1][i] + cost[i+1][j]] over
    [i ∈ [t-1, hi)], and [i0] is the first split attaining it. *)
Definition least_split (cf : Z → Z → Z) (DP : list (list cost_val))
    (t j hi v i0 : Z) : Prop :=
  t - 1 ≤ i0 < hi ∧
  ∀ i, t - 1 ≤ i < hi →
       v ≤ dval DP (t - 1) i + cf (i + 1) j ∧
       (i = i0 → v = dval DP (t - 1) i + cf (i + 1) j) ∧
       (i < i0 → v < dval DP (t - 1) i + cf (i + 1) j).

(** What the first row and the later rows of the finished tables
    [(DP, choice)] hold. *)
Definition dp_first_ok (cf : Z → Z → Z) (s : list (list cost_val) * list (list Z))
    (j : Z) : Prop :=
  cell (fst s) 1 j = Some (Fin (cf 1 j)) ∧ cell (snd s) 1 j = Some 0.

Definition dp_cell_ok (cf : Z → Z → Z) (s : list (list cost_val) * list (list Z))
    (t j : Z) : Prop :=
  ∃ v i0, cell (fst s) t j = Some (Fin v) ∧ cell (snd s) t j = Some i0 ∧
          (∀ i, t - 1 ≤ i < j → fin_cell (fst s) (t - 1) i) ∧
          least_split cf (fst s) t j j v i0.

Definition dp_table_ok (n k : Z) (cf : Z → Z → Z)
    (s : list (list cost_val) * list (list Z)) : Prop :=
  (∀ j, 1 ≤ j ≤ n → dp_first_ok cf s j) ∧
  (∀ t j, 2 ≤ t ≤ k → t ≤ j → j ≤ n → dp_cell_ok cf s t j).

(** A cell no loop writes: it keeps [inf] and [-1]. *)
Definition unset_ok (s : list (list cost_val) * list (list Z)) (t j : Z) : Prop :=
  cell (fst s) t j = Some Inf ∧ cell (snd s) t j = Some (-1).

(** [segs] lists contiguous non-empty ranges that start at [lo], follow one
    another without gap or overlap, and end at [hi]. *)
Fixpoint chain (lo : Z) (segs : list (Z * Z)) (hi : Z) : Prop :=
  match segs with
  | [] => lo = hi + 1
  | (L, R) :: rest => L = lo ∧ L ≤ R ∧ chain (R + 1) rest hi
  end.

(** The sum of [cf L R] over the segments. *)
Definition seg_sum (cf : Z → Z → Z) (segs : list (Z * Z)) : Z :=
  sum_list_Z ((λ seg, cf seg.1 seg.2) <$> segs).


(** A table read as a total function. *)
Definition cfun (cost : list (list Z)) (i j : Z) : Z := default 0 (cell cost i j).

(** The prefix-sum state of one copy, seen as that of the other. *)
Definition to_copy (s : prefix_state) : FastKServerCopy.prefix_state :=
  FastKServerCopy.PrefixState (st_w s) (st_W s) (st_XW s).

(** Every entry of [choice] in the rows [1..k] is [-1] or a position below [n]. *)
Definition choice_in_range (n k : Z) (choice : list (list Z)) : Prop :=
  ∀ t j, 1 ≤ t ≤ k → 0 ≤ j ≤ n → ∃ c, cell choice t j = Some c ∧ -1 ≤ c ≤ n - 1.

(** The bounds every backtracked segment keeps, feasible call or not. *)
Definition seg_in_table (n : Z) (seg : Z * Z) : Prop :=
  0 ≤ seg.1 ≤ n ∧ -1 ≤ seg.2 ≤ n.

(** The position the code reports for a segment. *)
Definition position_of (best_server : list (list Z)) (seg : Z * Z) : option Z :=
  if seg.1 <=? seg.2 then cell best_server seg.1 seg.2 else None.

(** A placement plan: segments [(L, R)], each with the position [p] of its
    server; its cost is the total weighted distance of every client to the
    server of its segment. *)
Definition plan_cost (w : list Z) (plan : list (Z * Z * Z)) : Z :=
  sum_list_Z ((λ x, weighted_distance w x.1.1 x.1.2 x.2) <$> plan).

(** The total weighted distance of a returned placement, recomputed from the
    weights; [None] when a position is absent or the two lists differ in
    length. *)
Fixpoint served_cost (w : list Z) (segs : list (Z * Z)) (positions : list (option Z))
    : option Z :=
  match segs, positions with
  | [], [] => Some 0
  | (L, R) :: segs', Some p :: positions' =>
      match served_cost w segs' positions' with
      | Some c => Some (weighted_distance w L R p + c)
      | None => None
      end
  | _, _ => None
  end.

(** * Reasoning about the embedding *)

(** ** Ranges and loops *)

Lemma range_nil a b : b ≤ a → range a b = [].
Proof. intros H. unfold range. by replace (Z.to_nat (b - a)) with 0%nat by lia. Qed.

Lemma range_cons a b : a < b → range a b = a :: range (a + 1) b.
Proof.
  intros H. unfold range.
  replace (Z.to_nat (b - a)) with (S (Z.to_nat (b - (a + 1)))) by lia. done.
Qed.

Lemma range_from_snoc a len :
  range_from a (S len) = range_from a len ++ [a + Z.of_nat len].
Proof.
  revert a. induction len as [|len IH]; intros a.
  - simpl. by rewrite Z.add_0_r.
  - change (range_from a (S (S len))) with (a :: range_from (a + 1) (S len)).
    rewrite IH. simpl. do 3 f_equal. lia.
Qed.

Lemma range_snoc a b : a ≤ b → range a (b + 1) = range a b ++ [b].
Proof.
  intros H. unfold range.
  replace (Z.to_nat (b + 1 - a)) with (S (Z.to_nat (b - a))) by lia.
  rewrite range_from_snoc. do 2 f_equal. lia.
Qed.

Lemma elem_of_range_from x a len :
  x ∈ range_from a len ↔ a ≤ x < a + Z.of_nat len.
Proof.
  revert a. induction len as [|len IH]; intros a; simpl.
  - rewrite elem_of_nil. lia.
  - rewrite elem_of_cons, IH. lia.
Qed.

Lemma elem_of_range x a b : x ∈ range a b ↔ a ≤ x < b.
Proof. unfold range. rewrite elem_of_range_from. lia. Qed.

Lemma length_range a b : length (range a b) = Z.to_nat (b - a).
Proof.
  unfold range. generalize (Z.to_nat (b - a)) as len. intros len. revert a.
  induction len as [|len IH]; intros a; simpl; [done|]. by rewrite IH.
Qed.

Lemma for_each_app {S X} (xs ys : list X) (body : X → S → result S) s :
  for_each (xs ++ ys) body s = s' ← for_each xs body s; for_each ys body s'.
Proof.
  revert s. induction xs as [|x xs IH]; intros s; simpl; [done|].
  destruct (body x s) as [s'| |]; simpl; [apply IH|done|done].
Qed.

Lemma for_each_ext {S X} (xs : list X) (f g : X → S → result S) s :
  (∀ x s, f x s = g x s) → for_each xs f s = for_each xs g s.
Proof.
  intros Hfg. revert s. induction xs as [|x xs IH]; intros s; simpl; [done|].
  rewrite Hfg. destruct (g x s); simpl; auto.
Qed.

(** The invariant rule for [for i in range(a, b)]. *)
Lemma for_range_inv {S} (I : Z → S → Prop) (body : Z → S → result S) a b s :
  a ≤ b →
  I a s →
  (∀ i s, a ≤ i < b → I i s → ∃ s', body i s = Ok s' ∧ I (i + 1) s') →
  ∃ s', for_each (range a b) body s = Ok s' ∧ I b s'.
Proof.
  intros Hab. remember (Z.to_nat (b - a)) as len eqn:Hlen.
  revert a s Hab Hlen. induction len as [|len IH]; intros a s Hab Hlen Ha Hstep.
  - assert (a = b) as -> by lia. rewrite range_nil by lia. eauto.
  - rewrite range_cons by lia. simpl.
    destruct (Hstep a s) as (s1 & -> & Hs1); [lia|done|]. simpl.
    apply IH; [lia|lia|done|]. intros i s2 Hi. apply Hstep. lia.
Qed.

(** ** Subscripts within bounds *)

Lemma index_of_nonneg len i :
  0 ≤ i < Z.of_nat len → index_of len i = Ok (Z.to_nat i).
Proof.
  intros H. unfold index_of.
  destruct (Z.ltb_spec i 0); [lia|].
  destruct (Z.leb_spec 0 i); [|lia].
  destruct (Z.ltb_spec i (Z.of_nat len)); [done|lia].
Qed.

Lemma getitem_lookup {A} (l : list A) i a :
  0 ≤ i → l !! Z.to_nat i = Some a → getitem l i = Ok a.
Proof.
  intros Hi Hl. unfold getitem.
  rewrite index_of_nonneg by (apply lookup_lt_Some in Hl; lia).
  simpl. by rewrite Hl.
Qed.

Lemma setitem_insert {A} (l : list A) i v :
  0 ≤ i < Z.of_nat (length l) → setitem l i v = Ok (<[Z.to_nat i := v]> l).
Proof. intros Hi. unfold setitem. by rewrite index_of_nonneg. Qed.

Lemma getitem_arr l n f p :
  arr_is l n f → 0 ≤ p ≤ n → getitem l p = Ok (f p).
Proof. intros [_ H] Hp. apply getitem_lookup; [lia|auto]. Qed.

(** ** Tables: rows of equal length, read at non-negative subscripts *)

Lemma getitem2_cell {A} (T : list (list A)) i j v :
  0 ≤ i → 0 ≤ j → cell T i j = Some v → getitem2 T i j = Ok v.
Proof.
  unfold cell, getitem2. intros Hi Hj Hc.
  destruct (T !! Z.to_nat i) as [row|] eqn:Hrow; [|done].
  rewrite (getitem_lookup _ _ _ Hi Hrow). simpl. by apply getitem_lookup.
Qed.

Lemma shape_cell {A} r c (T : list (list A)) i j :
  shape r c T → 0 ≤ i < r → 0 ≤ j < c → is_Some (cell T i j).
Proof.
  intros [Hlen Hrows] Hi Hj. unfold cell.
  destruct (lookup_lt_is_Some_2 T (Z.to_nat i)) as [row Hrow]; [lia|].
  rewrite Hrow. apply lookup_lt_is_Some_2.
  rewrite Forall_lookup in Hrows. rewrite (Hrows _ _ Hrow). lia.
Qed.

Lemma setitem2_spec {A} r c (T : list (list A)) i j v :
  shape r c T → 0 ≤ i < r → 0 ≤ j < c →
  ∃ T', setitem2 T i j v = Ok T' ∧ shape r c T' ∧ cell T' i j = Some v ∧
        ∀ i' j', 0 ≤ i' → 0 ≤ j' → i' ≠ i ∨ j' ≠ j → cell T' i' j' = cell T i' j'.
Proof.
  intros [Hlen Hrows] Hi Hj.
  destruct (lookup_lt_is_Some_2 T (Z.to_nat i)) as [row Hrow]; [lia|].
  assert (length row = Z.to_nat c) as Hrl.
  { rewrite Forall_lookup in Hrows. eauto. }
  exists (<[Z.to_nat i := <[Z.to_nat j := v]> row]> T). split; [|split; [|split]].
  - unfold setitem2. rewrite (getitem_lookup T i row) by (done || lia). simpl.
    rewrite setitem_insert by lia. simpl. apply setitem_insert. lia.
  - split; [by rewrite length_insert|].
    apply Forall_insert; [done|]. by rewrite length_insert.
  - unfold cell. rewrite list_lookup_insert_eq by lia.
    apply list_lookup_insert_eq. lia.
  - intros i' j' Hi' Hj' Hne. unfold cell.
    destruct (decide (i' = i)) as [->|Hii].
    + rewrite list_lookup_insert_eq by lia. rewrite Hrow.
      apply list_lookup_insert_ne. lia.
    + rewrite list_lookup_insert_ne by lia. done.
Qed.

Lemma lookup_range_from a len (p : nat) :
  (p < len)%nat → range_from a len !! p = Some (a + Z.of_nat p).
Proof.
  revert a p. induction len as [|len IH]; intros a p Hp; [lia|].
  destruct p as [|p]; simpl.
  - f_equal. lia.
  - rewrite IH by lia. f_equal. lia.
Qed.

Lemma shape_new_table {A} (x : A) n rows :
  shape rows (n + 1) (new_table x n rows).
Proof.
  unfold new_table, shape, repeat_list. split.
  - rewrite length_fmap, length_range. f_equal. lia.
  - apply Forall_fmap, Forall_forall. intros ? _. simpl. apply length_replicate.
Qed.

Lemma cell_new_table {A} (x : A) n rows i j :
  0 ≤ i < rows → 0 ≤ j ≤ n → cell (new_table x n rows) i j = Some x.
Proof.
  intros Hi Hj. unfold cell, new_table, repeat_list, range.
  rewrite list_lookup_fmap, lookup_range_from by lia. simpl.
  apply lookup_replicate_2. lia.
Qed.

(** ** The prefix sums *)

Lemma psum_step f i :
  1 ≤ i → psum f (Z.to_nat i) = psum f (Z.to_nat (i - 1)) + f i.
Proof.
  intros Hi. replace (Z.to_nat i) with (S (Z.to_nat (i - 1))) by lia.
  simpl psum. do 2 f_equal. lia.
Qed.

Lemma Wsum_step w i : 1 ≤ i → Wsum w i = Wsum w (i - 1) + item w i.
Proof. apply psum_step. Qed.

Lemma XWsum_step w i : 1 ≤ i → XWsum w i = XWsum w (i - 1) + i * item w i.
Proof. intros Hi. unfold XWsum. by rewrite psum_step. Qed.

Lemma nonneg_weights_wt n w p : nonneg_weights n w → 1 ≤ p ≤ n → 0 ≤ item w p.
Proof.
  intros Hw Hp. unfold item.
  destruct (w !! Z.to_nat p) as [x|] eqn:Hx; [simpl|done].
  unfold nonneg_weights in Hw. rewrite Forall_lookup in Hw.
  apply (Hw (Z.to_nat (p - 1))).
  rewrite lookup_take_lt by lia. rewrite lookup_drop.
  by replace (1 + Z.to_nat (p - 1))%nat with (Z.to_nat p) by lia.
Qed.

Lemma Wsum_mono n w p q :
  nonneg_weights n w → 0 ≤ p ≤ q → q ≤ n → Wsum w p ≤ Wsum w q.
Proof.
  intros Hw Hpq Hq. remember (Z.to_nat (q - p)) as d eqn:Hd.
  revert q Hpq Hq Hd. induction d as [|d IH]; intros q Hpq Hq Hd.
  - assert (q = p) as -> by lia. done.
  - rewrite (Wsum_step w q) by lia.
    pose proof (nonneg_weights_wt n w q Hw). specialize (IH (q - 1)). lia.
Qed.

Lemma prefix_stage_spec n w :
  0 ≤ n → length w = Z.to_nat (n + 1) →
  ∃ s, prefix_stage n w = Ok s ∧ st_w s = w ∧
       arr_is (st_W s) n (Wsum w) ∧ arr_is (st_XW s) n (XWsum w).
Proof.
  intros Hn Hlen. unfold prefix_stage.
  pose (I := λ (i : Z) (s : prefix_state),
    st_w s = w ∧ length (st_W s) = Z.to_nat (n + 1) ∧
    length (st_XW s) = Z.to_nat (n + 1) ∧
    ∀ p, 0 ≤ p < i → st_W s !! Z.to_nat p = Some (Wsum w p) ∧
                       st_XW s !! Z.to_nat p = Some (XWsum w p)).
  destruct (for_range_inv I prefix_body 1 (n + 1)
              (PrefixState w (repeat_list 0 (n + 1)) (repeat_list 0 (n + 1))))
    as (s & Hs & Hw & HlW & HlX & Hcells); [lia| |..].
  - unfold I, repeat_list; simpl. rewrite length_replicate.
    repeat split; try done; assert (p = 0) as -> by lia;
      apply lookup_replicate_2; lia.
  - intros i [w0 W XW] Hi (Hw0 & HlW & HlX & Hcells). simpl in *. subst w0.
    destruct (Hcells (i - 1)) as [HW HXW]; [lia|].
    destruct (lookup_lt_is_Some_2 w (Z.to_nat i)) as [wi Hwi]; [lia|].
    assert (item w i = wi) as Hwt by (unfold item; by rewrite Hwi).
    unfold prefix_body; simpl.
    rewrite (getitem_lookup W (i - 1) _) by (done || lia). simpl.
    rewrite (getitem_lookup w i wi) by (done || lia). simpl.
    rewrite setitem_insert by lia. simpl.
    rewrite (getitem_lookup XW (i - 1) _) by (done || lia). simpl.
    rewrite setitem_insert by lia. simpl.
    eexists. split; [done|]. unfold I; simpl.
    rewrite !length_insert. repeat split; try done.
    + destruct (decide (p = i)) as [->|Hne].
      * rewrite list_lookup_insert_eq by lia.
        rewrite (Wsum_step w i) by lia. by rewrite Hwt.
      * rewrite list_lookup_insert_ne by lia. apply Hcells. lia.
    + destruct (decide (p = i)) as [->|Hne].
      * rewrite list_lookup_insert_eq by lia.
        rewrite (XWsum_step w i) by lia. by rewrite Hwt.
      * rewrite list_lookup_insert_ne by lia. apply Hcells. lia.
  - exists s. repeat split; try done; intros p Hp; apply Hcells; lia.
Qed.

(** ** The weighted median *)

Lemma ceil_half_spec total c : ceil_half total ≤ c ↔ total ≤ 2 * c.
Proof.
  unfold ceil_half.
  pose proof (Z.div_mod (total + 1) 2 ltac:(lia)).
  pose proof (Z.mod_pos_bound (total + 1) 2 ltac:(lia)). lia.
Qed.

Lemma median_scan_spec W n A tg j m0 a :
  arr_is W n A → 0 ≤ a ≤ j + 1 → j ≤ n →
  ∃ m, median_scan W tg (range a (j + 1)) m0 = Ok m ∧
       ((a ≤ m ≤ j ∧ tg ≤ A m ∧ ∀ p, a ≤ p < m → A p < tg)
        ∨ (m = m0 ∧ ∀ p, a ≤ p ≤ j → A p < tg)).
Proof.
  intros HW Ha Hj. remember (Z.to_nat (j + 1 - a)) as len eqn:Hlen.
  revert a Ha Hlen. induction len as [|len IH]; intros a Ha Hlen.
  - rewrite range_nil by lia. simpl. exists m0. split; [done|]. right.
    split; [done|]. intros p Hp. lia.
  - rewrite range_cons by lia. simpl.
    rewrite (getitem_arr W n A) by (done || lia). simpl.
    destruct (Z.geb_spec (A a) tg) as [Hge|Hlt].
    + exists a. split; [done|]. left. repeat split; try lia.
    + destruct (IH (a + 1)) as (m & Hm & Hcases); [lia|lia|].
      exists m. split; [done|].
      destruct Hcases as [(Hr & Htg & Hbelow)|[-> Hbelow]].
      * left. repeat split; try lia. intros p Hp.
        destruct (decide (p = a)) as [->|]; [lia|apply Hbelow; lia].
      * right. split; [done|]. intros p Hp.
        destruct (decide (p = a)) as [->|]; [lia|apply Hbelow; lia].
Qed.

Lemma find_weighted_median_scan W n A i j :
  arr_is W n A → 1 ≤ i ≤ j → j ≤ n →
  ∃ m, find_weighted_median i j W = Ok m ∧ scan_result A i j m.
Proof.
  intros HW Hi Hj. unfold find_weighted_median.
  rewrite !(getitem_arr W n A) by (done || lia). simpl.
  destruct (median_scan_spec W n A (median_target A i j) j i i HW) as (m & Hm & Hc);
    [lia|lia|].
  exists m. split; [exact Hm|]. unfold scan_result. destruct Hc; [left|right]; done.
Qed.

Lemma scan_result_range A i j m : i ≤ j → scan_result A i j m → i ≤ m ≤ j.
Proof. intros Hij [(H & _)|[-> _]]; lia. Qed.

Lemma scan_result_median n w i j m :
  nonneg_weights n w → 1 ≤ i ≤ j → j ≤ n →
  scan_result (Wsum w) i j m → is_median (Wsum w) i j m.
Proof.
  intros Hw Hi Hj [H|[-> Hnone]]; [done|]. exfalso.
  specialize (Hnone j ltac:(lia)). unfold median_target in Hnone.
  pose proof (Wsum_mono n w (i - 1) j Hw ltac:(lia) Hj) as Hmono.
  pose proof (proj2 (ceil_half_spec (Wsum w j - Wsum w (i - 1))
                       (Wsum w j - Wsum w (i - 1))) ltac:(lia)). lia.
Qed.

Lemma prefix_sum_array_is n w : 0 ≤ n → arr_is (prefix_sum_array n w) n (Wsum w).
Proof.
  intros Hn. unfold prefix_sum_array. split.
  - rewrite length_fmap, length_range. f_equal. lia.
  - intros p Hp. unfold range. rewrite list_lookup_fmap, lookup_range_from by lia.
    simpl. do 2 f_equal. lia.
Qed.

Lemma item_arr l n f p : arr_is l n f → 0 ≤ p ≤ n → item l p = f p.
Proof. intros [_ H] Hp. unfold item. by rewrite H. Qed.

Lemma arr_is_unique l1 l2 n f : 0 ≤ n → arr_is l1 n f → arr_is l2 n f → l1 = l2.
Proof.
  intros Hn [Hl1 H1] [Hl2 H2]. apply list_eq. intros p.
  destruct (decide (p < length l1)%nat) as [Hlt|Hge].
  - specialize (H1 (Z.of_nat p) ltac:(lia)). specialize (H2 (Z.of_nat p) ltac:(lia)).
    rewrite Nat2Z.id in H1, H2. congruence.
  - rewrite !lookup_ge_None_2 by lia. done.
Qed.

(** The array [W] the call builds is the prefix-sum array of its input. *)
Lemma prefix_stage_array n w ps :
  0 ≤ n → length w = Z.to_nat (n + 1) →
  prefix_stage n w = Ok ps → st_W ps = prefix_sum_array n w.
Proof.
  intros Hn Hlen Hps.
  destruct (prefix_stage_spec n w Hn Hlen) as (ps' & Hps' & _ & HW & _).
  assert (ps' = ps) as -> by congruence.
  apply (arr_is_unique _ _ n (Wsum w)); [done|done|by apply prefix_sum_array_is].
Qed.

(** ** The interval-cost table *)

Lemma cost_body_spec n W XW A B i j s :
  arr_is W n A → arr_is XW n B → 1 ≤ i ≤ j → j ≤ n →
  shape (n + 1) (n + 1) (fst s) → shape (n + 1) (n + 1) (snd s) →
  ∃ s', cost_body W XW i j s = Ok s' ∧
        shape (n + 1) (n + 1) (fst s') ∧ shape (n + 1) (n + 1) (snd s') ∧
        cost_cell_ok A B s' i j ∧
        ∀ i' j', 0 ≤ i' → 0 ≤ j' → i' ≠ i ∨ j' ≠ j →
                 cell (fst s') i' j' = cell (fst s) i' j' ∧
                 cell (snd s') i' j' = cell (snd s) i' j'.
Proof.
  intros HW HXW Hi Hj Hsc Hsb. destruct s as [cost best]. simpl in *.
  destruct (find_weighted_median_scan W n A i j HW Hi Hj) as (m & Hm & Hscan).
  pose proof (scan_result_range A i j m ltac:(lia) Hscan) as Hmr.
  destruct (setitem2_spec _ _ best i j m Hsb) as (best' & Hb & Hsb' & Hbc & Hbo); [lia..|].
  destruct (setitem2_spec _ _ cost i j (cost_formula A B i j m) Hsc)
    as (cost' & Hc & Hsc' & Hcc & Hco); [lia..|].
  exists (cost', best'). simpl. split; [|split; [done|split; [done|split]]].
  - unfold cost_body. rewrite Hm. simpl. rewrite Hb. simpl.
    unfold cost_formula in Hc.
    destruct (i <=? m - 1) eqn:HL; destruct (m + 1 <=? j) eqn:HR;
      [apply Z.leb_le in HL|apply Z.leb_le in HL|..];
      try (apply Z.leb_le in HR);
      rewrite ?(getitem_arr W n A), ?(getitem_arr XW n B) by (done || lia);
      simpl; rewrite Hc; done.
  - exists m. simpl. done.
  - intros i' j' Hi' Hj' Hne. split; [apply Hco|apply Hbo]; done.
Qed.

Lemma cost_stage_spec n W XW A B :
  0 ≤ n → arr_is W n A → arr_is XW n B →
  ∃ s, cost_stage n W XW = Ok s ∧
       shape (n + 1) (n + 1) (fst s) ∧ shape (n + 1) (n + 1) (snd s) ∧
       ∀ i j, 1 ≤ i ≤ j → j ≤ n → cost_cell_ok A B s i j.
Proof.
  intros Hn HW HXW. unfold cost_stage.
  pose (K := λ (i j : Z) (s : list (list Z) * list (list Z)),
    shape (n + 1) (n + 1) (fst s) ∧ shape (n + 1) (n + 1) (snd s) ∧
    ∀ i' j', 1 ≤ i' ≤ j' → j' ≤ n → i' < i ∨ (i' = i ∧ j' < j) →
             cost_cell_ok A B s i' j').
  destruct (for_range_inv (λ i s, K i i s)
              (λ i s, for_each (range i (n + 1)) (cost_body W XW i) s) 1 (n + 1)
              (new_table 0 n (n + 1), new_table 0 n (n + 1)))
    as (s & Hs & Hsc & Hsb & Hok); [lia| | |].
  - repeat split; simpl; try apply shape_new_table. intros; lia.
  - intros i s Hi HK.
    destruct (for_range_inv (K i) (cost_body W XW i) i (n + 1) s)
      as (s' & Hs' & Hsc' & Hsb' & Hok'); [lia|done| |].
    + intros j s1 Hj (Hsc1 & Hsb1 & Hok1).
      destruct (cost_body_spec n W XW A B i j s1 HW HXW) as (s2 & H2 & Hsc2 & Hsb2 & Hnew & Hold);
        [lia|lia|done|done|].
      exists s2. split; [done|]. split; [done|]. split; [done|].
      intros i' j' Hi' Hj' Hdone.
      destruct (decide (i' = i ∧ j' = j)) as [[-> ->]|Hne]; [done|].
      destruct (Hok1 i' j') as (m & Hm & Hb & Hc); [lia..|].
      destruct (Hold i' j') as [Hc' Hb']; [lia..|].
      exists m. rewrite Hc', Hb'. done.
    + exists s'. split; [done|]. split; [done|]. split; [done|].
      intros i' j' Hi' Hj' Hdone. apply Hok'; lia.
  - exists s. split; [done|]. split; [done|]. split; [done|].
    intros i j Hi Hj. apply Hok; lia.
Qed.

(** ** Brute force: the cost of serving an interval from a given position *)

Lemma sum_list_Z_app l1 l2 : sum_list_Z (l1 ++ l2) = sum_list_Z l1 + sum_list_Z l2.
Proof. induction l1 as [|x l1 IH]; simpl; lia. Qed.

Lemma range_split a b c : a ≤ b ≤ c → range a c = range a b ++ range b c.
Proof.
  intros H. remember (Z.to_nat (b - a)) as len eqn:Hlen.
  revert a H Hlen. induction len as [|len IH]; intros a H Hlen.
  - assert (a = b) as -> by lia. by rewrite (range_nil b b) by lia.
  - rewrite (range_cons a c), (range_cons a b) by lia. simpl. f_equal.
    apply IH; lia.
Qed.

Lemma weighted_distance_split w i j m c :
  i - 1 ≤ c ≤ j →
  weighted_distance w i j m = weighted_distance w i c m + weighted_distance w (c + 1) j m.
Proof.
  intros Hc. unfold weighted_distance.
  rewrite (range_split i (c + 1) (j + 1)) by lia.
  by rewrite fmap_app, sum_list_Z_app.
Qed.

Lemma weighted_distance_empty w i j m : j < i → weighted_distance w i j m = 0.
Proof. intros H. unfold weighted_distance. by rewrite range_nil by lia. Qed.

Lemma weighted_distance_last w i j m :
  i ≤ j →
  weighted_distance w i j m = weighted_distance w i (j - 1) m + item w j * Z.abs (j - m).
Proof.
  intros H. rewrite (weighted_distance_split w i j m (j - 1)) by lia.
  f_equal. unfold weighted_distance.
  replace (j - 1 + 1) with j by lia. rewrite range_cons, range_nil by lia.
  simpl. lia.
Qed.

(** Clients all to the left of the server, and all to its right. *)
Lemma weighted_distance_left w a b m :
  1 ≤ a ≤ b + 1 → b ≤ m →
  weighted_distance w a b m
  = m * (Wsum w b - Wsum w (a - 1)) - (XWsum w b - XWsum w (a - 1)).
Proof.
  intros Ha Hb. remember (Z.to_nat (b + 1 - a)) as len eqn:Hlen.
  revert b Ha Hb Hlen. induction len as [|len IH]; intros b Ha Hb Hlen.
  - assert (b = a - 1) as -> by lia. rewrite weighted_distance_empty; lia.
  - rewrite weighted_distance_last, (IH (b - 1)) by lia.
    rewrite (Wsum_step w b), (XWsum_step w b) by lia.
    rewrite Z.abs_neq by lia. lia.
Qed.

Lemma weighted_distance_right w a b m :
  1 ≤ a ≤ b + 1 → m ≤ a →
  weighted_distance w a b m
  = (XWsum w b - XWsum w (a - 1)) - m * (Wsum w b - Wsum w (a - 1)).
Proof.
  intros Ha Hm. remember (Z.to_nat (b + 1 - a)) as len eqn:Hlen.
  revert b Ha Hlen. induction len as [|len IH]; intros b Ha Hlen.
  - assert (b = a - 1) as -> by lia. rewrite weighted_distance_empty; lia.
  - rewrite weighted_distance_last, (IH (b - 1)) by lia.
    rewrite (Wsum_step w b), (XWsum_step w b) by lia.
    rewrite Z.abs_eq by lia. lia.
Qed.

Lemma weighted_distance_closed w i j m :
  1 ≤ i → i ≤ m ≤ j → weighted_distance w i j m = closed_cost w i j m.
Proof.
  intros Hi Hm. rewrite (weighted_distance_split w i j m m) by lia.
  rewrite weighted_distance_left, weighted_distance_right by lia.
  replace (m + 1 - 1) with m by lia. unfold closed_cost. lia.
Qed.

Lemma cost_formula_closed w i j m :
  1 ≤ i → i ≤ m ≤ j →
  cost_formula (Wsum w) (XWsum w) i j m = closed_cost w i j m.
Proof.
  intros Hi Hm. unfold cost_formula, closed_cost.
  rewrite (Wsum_step w m), (XWsum_step w m) by lia.
  destruct (Z.leb_spec i (m - 1)); destruct (Z.leb_spec (m + 1) j);
    try (assert (m = i) as -> by lia); try (assert (j = i) as -> by lia);
    try (assert (m = j) as -> by lia);
    rewrite ?(Wsum_step w i), ?(XWsum_step w i), ?(Wsum_step w j), ?(XWsum_step w j) by lia;
    lia.
Qed.

Lemma closed_cost_step w i j m :
  0 ≤ m →
  closed_cost w i j (m + 1) - closed_cost w i j m
  = 2 * Wsum w m - Wsum w (i - 1) - Wsum w j.
Proof.
  intros Hm. unfold closed_cost.
  rewrite (Wsum_step w (m + 1)), (XWsum_step w (m + 1)) by lia.
  replace (m + 1 - 1) with m by lia. lia.
Qed.

(** The weighted median minimises the closed form over the interval. *)
Lemma median_optimal n w i j med m :
  nonneg_weights n w → 1 ≤ i → j ≤ n →
  is_median (Wsum w) i j med → i ≤ m ≤ j →
  closed_cost w i j med ≤ closed_cost w i j m.
Proof.
  intros Hw Hi Hj (Hmed & Htg & Hbelow) Hm.
  unfold median_target in *.
  set (T := Wsum w j - Wsum w (i - 1)) in *.
  pose proof (proj1 (ceil_half_spec T (ceil_half T)) ltac:(lia)) as Hup.
  assert (ceil_half T ≤ (T + 1) `div` 2) as Hc by done.
  assert (2 * ceil_half T ≤ T + 1) as Hlow.
  { unfold ceil_half. pose proof (Z.div_mod (T + 1) 2 ltac:(lia)).
    pose proof (Z.mod_pos_bound (T + 1) 2 ltac:(lia)). lia. }
  destruct (Z.le_gt_cases med m) as [Hle|Hgt].
  - (* to the right of the median the cost does not decrease *)
    remember (Z.to_nat (m - med)) as d eqn:Hd.
    revert m Hm Hle Hd. induction d as [|d IH]; intros m Hm Hle Hd.
    + assert (m = med) as -> by lia. lia.
    + specialize (IH (m - 1) ltac:(lia) ltac:(lia) ltac:(lia)).
      pose proof (closed_cost_step w i j (m - 1) ltac:(lia)) as Hstep.
      replace (m - 1 + 1) with m in Hstep by lia.
      pose proof (Wsum_mono n w med (m - 1) Hw ltac:(lia) ltac:(lia)).
      subst T. lia.
  - (* to the left of the median the cost does not increase *)
    remember (Z.to_nat (med - m)) as d eqn:Hd.
    revert m Hm Hgt Hd. induction d as [|d IH]; intros m Hm Hgt Hd; [lia|].
    destruct (decide (m + 1 = med)) as [Heq|Hne].
    + pose proof (closed_cost_step w i j m ltac:(lia)) as Hstep.
      rewrite Heq in Hstep. specialize (Hbelow m ltac:(lia)). subst T. lia.
    + specialize (IH (m + 1) ltac:(lia) ltac:(lia) ltac:(lia)).
      pose proof (closed_cost_step w i j m ltac:(lia)) as Hstep.
      specialize (Hbelow m ltac:(lia)). subst T. lia.
Qed.

Lemma foldr_min_le x0 l y : y ∈ l → foldr Z.min x0 l ≤ y.
Proof.
  induction l as [|x l IH]; simpl; [by rewrite elem_of_nil|].
  rewrite elem_of_cons. intros [->|Hy]; [lia|]. specialize (IH Hy). lia.
Qed.

Lemma foldr_min_ge x0 l v : v ≤ x0 → (∀ y, y ∈ l → v ≤ y) → v ≤ foldr Z.min x0 l.
Proof.
  intros Hx0. induction l as [|x l IH]; simpl; intros Hall; [done|].
  pose proof (Hall x ltac:(left)). 
  assert (v ≤ foldr Z.min x0 l) by (apply IH; intros y Hy; apply Hall; by right).
  lia.
Qed.

(** The brute-force minimum is the cost at the weighted median. *)
Lemma brute_force_min_median n w i j med :
  nonneg_weights n w → 1 ≤ i ≤ j → j ≤ n →
  is_median (Wsum w) i j med →
  brute_force_min w i j = closed_cost w i j med.
Proof.
  intros Hw Hi Hj Hmed. unfold brute_force_min. apply Z.le_antisymm.
  - rewrite <- (weighted_distance_closed w i j med) by (destruct Hmed; lia).
    apply foldr_min_le. apply list_elem_of_fmap. exists med. split; [done|].
    apply elem_of_range. destruct Hmed. lia.
  - apply foldr_min_ge.
    + rewrite weighted_distance_closed by lia.
      apply (median_optimal n); (done || lia).
    + intros y (m & -> & Hm%elem_of_range)%list_elem_of_fmap.
      rewrite weighted_distance_closed by lia.
      apply (median_optimal n); (done || lia).
Qed.

(** ** The DP tables *)

Lemma fin_cell_dval DP t j : fin_cell DP t j → cell DP t j = Some (Fin (dval DP t j)).
Proof. intros [v Hv]. unfold dval. by rewrite Hv. Qed.

Lemma dp_scan_spec n cf cost DP t j :
  cost_is n cost cf → 2 ≤ t ≤ j → j ≤ n →
  (∀ i, t - 1 ≤ i < j → fin_cell DP (t - 1) i) →
  ∃ v i0, for_each (range (t - 1) j) (dp_scan_body DP cost t j) (Inf, -1) = Ok (Fin v, i0) ∧
          least_split cf DP t j j v i0.
Proof.
  intros Hcost Ht Hj Hfin.
  pose (I := λ (hi : Z) (s : cost_val * Z),
    (hi = t - 1 ∧ s = (Inf, -1)) ∨
    (∃ v i0, s = (Fin v, i0) ∧ least_split cf DP t j hi v i0)).
  destruct (for_range_inv I (dp_scan_body DP cost t j) (t - 1) j (Inf, -1))
    as (s & Hs & HI); [lia|by left| |].
  - intros i [bv bi] Hi HI. unfold dp_scan_body.
    rewrite (getitem2_cell DP (t - 1) i (Fin (dval DP (t - 1) i)))
      by (lia || apply fin_cell_dval, Hfin; lia). simpl.
    rewrite (getitem2_cell cost (i + 1) j (cf (i + 1) j))
      by (lia || apply Hcost; lia). simpl.
    destruct HI as [[Hhi [= -> ->]]|(v & i0 & [= -> ->] & Hr & Hleast)].
    + simpl. eexists. split; [done|]. right. do 2 eexists. split; [done|].
      split; [lia|]. intros i' Hi'. assert (i' = i) as -> by lia. lia.
    + simpl. destruct (Z.ltb_spec (dval DP (t - 1) i + cf (i + 1) j) v) as [Hlt|Hge].
      * eexists. split; [done|]. right. do 2 eexists. split; [done|].
        split; [lia|]. intros i' Hi'.
        destruct (decide (i' = i)) as [->|Hne]; [lia|].
        destruct (Hleast i') as (Hle & _ & _); lia.
      * eexists. split; [done|]. right. do 2 eexists. split; [done|].
        split; [lia|]. intros i' Hi'.
        destruct (decide (i' = i)) as [->|Hne]; [lia|].
        apply Hleast. lia.
  - destruct HI as [[Hhi _]|(v & i0 & -> & Hleast)]; [lia|]. eauto.
Qed.

Lemma dp_table_fin n k cf s t j :
  dp_table_ok n k cf s → 1 ≤ t ≤ k → t ≤ j → j ≤ n → fin_cell (fst s) t j.
Proof.
  intros [H1 H2] Ht Hj Hn. destruct (decide (t = 1)) as [->|Hne].
  - destruct (H1 j) as [Hc _]; [lia|]. by eexists.
  - destruct (H2 t j) as (v & i0 & Hc & _); [lia..|]. by eexists.
Qed.

(** Cells of rows below [t], and other cells of row [t], survive a write
    to [(t, j)]. *)
Lemma dp_cell_ok_frame cf (s s' : list (list cost_val) * list (list Z)) t j t' j' :
  (∀ a b, 0 ≤ a → 0 ≤ b → a ≠ t ∨ b ≠ j →
          cell (fst s') a b = cell (fst s) a b ∧ cell (snd s') a b = cell (snd s) a b) →
  2 ≤ t' ≤ t → 1 ≤ j' → t' ≠ t ∨ j' ≠ j →
  dp_cell_ok cf s t' j' → dp_cell_ok cf s' t' j'.
Proof.
  intros Hold Ht' Hj' Hne (v & i0 & Hv & Hi0 & Hfin & Hr & Hleast).
  assert (∀ i, 0 ≤ i → dval (fst s') (t' - 1) i = dval (fst s) (t' - 1) i) as Hd.
  { intros i Hi. unfold dval. destruct (Hold (t' - 1) i) as [-> _]; (done || lia). }
  exists v, i0. destruct (Hold t' j') as [-> ->]; [lia..|].
  split; [done|]. split; [done|]. split.
  - intros i Hi. unfold fin_cell. destruct (Hold (t' - 1) i) as [-> _]; [lia..|].
    by apply Hfin.
  - split; [done|]. intros i Hi. rewrite Hd by lia. by apply Hleast.
Qed.

Lemma dp_first_row_spec n k cf cost s j :
  cost_is n cost cf → 1 ≤ k → 1 ≤ j ≤ n →
  shape (k + 1) (n + 1) (fst s) → shape (k + 1) (n + 1) (snd s) →
  ∃ s', dp_first_row cost j s = Ok s' ∧
        shape (k + 1) (n + 1) (fst s') ∧ shape (k + 1) (n + 1) (snd s') ∧
        dp_first_ok cf s' j ∧
        ∀ a b, 0 ≤ a → 0 ≤ b → a ≠ 1 ∨ b ≠ j →
               cell (fst s') a b = cell (fst s) a b ∧ cell (snd s') a b = cell (snd s) a b.
Proof.
  intros Hcost Hk Hj Hsd Hsc. destruct s as [DP choice]. simpl in *.
  destruct (setitem2_spec _ _ DP 1 j (Fin (cf 1 j)) Hsd) as (DP' & HD & HsD & HDc & HDo); [lia..|].
  destruct (setitem2_spec _ _ choice 1 j 0 Hsc) as (ch' & HC & HsC & HCc & HCo); [lia..|].
  exists (DP', ch'). simpl. split; [|split; [done|split; [done|split; [done|]]]].
  - unfold dp_first_row.
    rewrite (getitem2_cell cost 1 j (cf 1 j)) by (lia || apply Hcost; lia). simpl.
    rewrite HD. simpl. rewrite HC. done.
  - intros a b Ha Hb Hne. split; [apply HDo|apply HCo]; done.
Qed.

Lemma dp_cell_spec n k cf cost s t j :
  cost_is n cost cf → 2 ≤ t ≤ k → t ≤ j → j ≤ n →
  shape (k + 1) (n + 1) (fst s) → shape (k + 1) (n + 1) (snd s) →
  (∀ i, t - 1 ≤ i < j → fin_cell (fst s) (t - 1) i) →
  ∃ s', dp_cell cost t j s = Ok s' ∧
        shape (k + 1) (n + 1) (fst s') ∧ shape (k + 1) (n + 1) (snd s') ∧
        dp_cell_ok cf s' t j ∧
        ∀ a b, 0 ≤ a → 0 ≤ b → a ≠ t ∨ b ≠ j →
               cell (fst s') a b = cell (fst s) a b ∧ cell (snd s') a b = cell (snd s) a b.
Proof.
  intros Hcost Ht Htj Hj Hsd Hsc Hfin. destruct s as [DP choice]. simpl in *.
  destruct (dp_scan_spec n cf cost DP t j Hcost) as (v & i0 & Hscan & Hleast); [lia|lia|done|].
  destruct (setitem2_spec _ _ DP t j (Fin v) Hsd) as (DP' & HD & HsD & HDc & HDo); [lia..|].
  destruct (setitem2_spec _ _ choice t j i0 Hsc) as (ch' & HC & HsC & HCc & HCo); [lia..|].
  assert (∀ i, 0 ≤ i → cell DP' (t - 1) i = cell DP (t - 1) i) as Hrow.
  { intros i Hi. apply HDo; lia. }
  exists (DP', ch'). simpl. split; [|split; [done|split; [done|split]]].
  - unfold dp_cell. destruct (Z.ltb_spec j t); [lia|].
    rewrite Hscan. simpl. rewrite HD. simpl. rewrite HC. done.
  - exists v, i0. simpl. split; [done|]. split; [done|]. split.
    + intros i Hi. unfold fin_cell. rewrite Hrow by lia. by apply Hfin.
    + destruct Hleast as [Hr Hl]. split; [done|]. intros i Hi.
      unfold dval. rewrite Hrow by lia. by apply Hl.
  - intros a b Ha Hb Hne. split; [apply HDo|apply HCo]; done.
Qed.

Lemma dp_stage_spec n k cf cost :
  1 ≤ n → 1 ≤ k → cost_is n cost cf →
  ∃ s, dp_stage n k cost = Ok s ∧
       shape (k + 1) (n + 1) (fst s) ∧ shape (k + 1) (n + 1) (snd s) ∧
       dp_table_ok n k cf s ∧
       (∀ t j, 1 ≤ t ≤ k → 0 ≤ j < t → j ≤ n → unset_ok s t j).
Proof.
  intros Hn Hk Hcost. unfold dp_stage.
  destruct (setitem2_spec (k + 1) (n + 1) (new_table Inf n (k + 1)) 0 0 (Fin 0))
    as (DP0 & -> & HsD0 & _ & HD0); [apply shape_new_table|lia|lia|]. simpl.
  pose (U := λ (s : list (list cost_val) * list (list Z)),
    shape (k + 1) (n + 1) (fst s) ∧ shape (k + 1) (n + 1) (snd s) ∧
    ∀ t j, 1 ≤ t ≤ k → 0 ≤ j < t → j ≤ n → unset_ok s t j).
  (* the first row *)
  destruct (for_range_inv
              (λ j s, U s ∧ ∀ j', 1 ≤ j' < j → dp_first_ok cf s j')
              (dp_first_row cost) 1 (n + 1) (DP0, new_table (-1) n (k + 1)))
    as (s1 & -> & (Hs1D & Hs1C & Hun1) & Hfirst); [lia| | |].
  - split; [|intros; lia]. split; [done|]. split; [apply shape_new_table|].
    intros t j Ht Hj Hjn. split; simpl.
    + rewrite HD0 by lia. apply cell_new_table; lia.
    + apply cell_new_table; lia.
  - intros j s Hj ((HsD & HsC & Hun) & Hdone).
    destruct (dp_first_row_spec n k cf cost s j Hcost Hk) as (s' & Hs' & HsD' & HsC' & Hnew & Hold);
      [lia|done|done|].
    exists s'. split; [done|]. split; [split; [done|split; [done|]]|].
    + intros t j' Ht Hj' Hjn. destruct (Hold t j') as [HD HC]; [lia..|].
      unfold unset_ok. rewrite HD, HC. by apply Hun.
    + intros j' Hj'. destruct (decide (j' = j)) as [->|Hne]; [done|].
      destruct (Hold 1 j') as [HD HC]; [lia..|].
      unfold dp_first_ok. rewrite HD, HC. apply Hdone. lia.
  - simpl.
    (* the rows [2..k] *)
    pose (K := λ (t j : Z) (s : list (list cost_val) * list (list Z)),
      U s ∧ (∀ j', 1 ≤ j' ≤ n → dp_first_ok cf s j') ∧
      ∀ t' j', 2 ≤ t' ≤ k → t' ≤ j' → j' ≤ n → t' < t ∨ (t' = t ∧ j' < j) →
               dp_cell_ok cf s t' j').
    destruct (for_range_inv (λ t s, K t 1 s)
                (λ t s, for_each (range 1 (n + 1)) (dp_cell cost t) s) 2 (k + 1) s1)
      as (s2 & Hs2 & (HsD2 & HsC2 & Hun2) & Hfirst2 & Hcells); [lia| | |].
    + split; [done|]. split; [intros; apply Hfirst; lia|]. intros; lia.
    + intros t s Ht HK.
      destruct (for_range_inv (K t) (dp_cell cost t) 1 (n + 1) s)
        as (s' & Hs' & HU' & Hfirst' & Hcells'); [lia|done| |].
      * intros j sa Hj ((HsD & HsC & Hun) & Hfst & Hdone).
        destruct (Z.lt_ge_cases j t) as [Hlt|Hge].
        { exists sa. split.
          - unfold dp_cell. destruct sa. destruct (Z.ltb_spec j t); [done|lia].
          - split; [done|]. split; [done|]. intros t' j' Ht' Hj' Hjn Hc.
            apply Hdone; lia. }
        destruct (dp_cell_spec n k cf cost sa t j Hcost) as (sb & Hsb & HsD' & HsC' & Hnew & Hold);
          [lia|lia|lia|done|done| |].
        { intros i Hi. destruct (decide (t = 2)) as [->|Hne].
          - destruct (Hfst i) as [Hc _]; [lia|]. by eexists.
          - destruct (Hdone (t - 1) i) as (v & i0 & Hc & _); [lia..|]. by eexists. }
        exists sb. split; [done|]. split; [split; [done|split; [done|]]|split].
        -- intros t' j' Ht' Hj' Hjn. destruct (Hold t' j') as [HD HC]; [lia..|].
           unfold unset_ok. rewrite HD, HC. by apply Hun.
        -- intros j' Hj'. destruct (Hold 1 j') as [HD HC]; [lia..|].
           unfold dp_first_ok. rewrite HD, HC. by apply Hfst.
        -- intros t' j' Ht' Hj' Hjn Hc.
           destruct (decide (t' = t ∧ j' = j)) as [[-> ->]|Hne]; [done|].
           apply (dp_cell_ok_frame cf sa sb t j); [done|lia|lia|lia|].
           apply Hdone; lia.
      * exists s'. split; [done|]. split; [done|]. split; [done|].
        intros t' j' Ht' Hj' Hjn Hc. apply Hcells'; lia.
    + exists s2. split; [done|]. split; [done|]. split; [done|]. split; [|done].
      split; [done|]. intros t j Ht Hj Hjn. apply Hcells; lia.
Qed.

(** ** Backtracking *)

Lemma chain_snoc lo segs mid R :
  chain lo segs mid → mid + 1 ≤ R → chain lo (segs ++ [(mid + 1, R)]) R.
Proof.
  revert lo. induction segs as [|[L R'] segs IH]; simpl; intros lo.
  - intros -> HR. done.
  - intros (-> & HLR & Hrest) HR. auto.
Qed.

Lemma chain_le lo segs hi : chain lo segs hi → lo ≤ hi + 1.
Proof.
  revert lo. induction segs as [|[L R] segs IH]; simpl; intros lo; [lia|].
  intros (-> & HLR & Hrest). apply IH in Hrest. lia.
Qed.

Lemma chain_bounds lo segs hi L R :
  chain lo segs hi → (L, R) ∈ segs → lo ≤ L ∧ L ≤ R ∧ R ≤ hi.
Proof.
  revert lo. induction segs as [|[L' R'] segs IH]; simpl; intros lo Hch Hin.
  - by apply elem_of_nil in Hin.
  - destruct Hch as (-> & HLR & Hrest). apply elem_of_cons in Hin as [[= -> ->]|Hin].
    + apply chain_le in Hrest. lia.
    + destruct (IH _ Hrest Hin). lia.
Qed.

Lemma seg_sum_app cf l1 l2 : seg_sum cf (l1 ++ l2) = seg_sum cf l1 + seg_sum cf l2.
Proof. unfold seg_sum. by rewrite fmap_app, sum_list_Z_app. Qed.

Lemma seg_sum_reverse cf l : seg_sum cf (reverse l) = seg_sum cf l.
Proof.
  induction l as [|x l IH]; [done|].
  rewrite reverse_cons, seg_sum_app, IH.
  change (seg_sum cf (x :: l)) with (cf x.1 x.2 + seg_sum cf l).
  change (seg_sum cf [x]) with (cf x.1 x.2 + 0). lia.
Qed.

Lemma backtrack_spec n k cf s (tn : nat) :
  dp_table_ok n k cf s →
  ∀ t j fuel acc,
    t = Z.of_nat (S tn) → t ≤ k → t ≤ j → j ≤ n → (S tn ≤ fuel)%nat →
    ∃ segs, backtrack fuel (snd s) t j acc = Ok (acc ++ segs) ∧
            length segs = S tn ∧ chain 1 (reverse segs) j ∧
            seg_sum cf segs = dval (fst s) t j.
Proof.
  intros [Hfirst Hcells]. induction tn as [|tn IH]; intros t j fuel acc Ht Htk Htj Hjn Hfuel.
  - assert (t = 1) as -> by lia. destruct fuel as [|fuel]; [lia|].
    destruct (Hfirst j) as [HD HC]; [lia|].
    exists [(1, j)]. simpl.
    rewrite (getitem2_cell _ 1 j 0) by (done || lia). simpl.
    split; [by destruct fuel|]. split; [done|]. split; [lia|].
    unfold seg_sum, dval. rewrite HD. simpl. lia.
  - destruct fuel as [|fuel]; [lia|].
    destruct (Hcells t j) as (v & i0 & HD & HC & Hfin & Hr & Hleast); [lia..|].
    destruct (IH (t - 1) i0 fuel (acc ++ [(i0 + 1, j)])) as (rest & Hrest & Hlen & Hch & Hsum);
      [lia..|].
    exists ((i0 + 1, j) :: rest).
    change (backtrack (S fuel) s.2 t j acc) with
      (if t >? 0 then
         i ← getitem2 s.2 t j; backtrack fuel s.2 (t - 1) i (acc ++ [(i + 1, j)])
       else Ok acc).
    destruct (Z.gtb_spec t 0); [|lia].
    rewrite (getitem2_cell _ t j i0) by (done || lia). simpl.
    rewrite Hrest, <- app_assoc. split; [done|]. split; [simpl; lia|]. split.
    + rewrite reverse_cons. apply chain_snoc; [done|lia].
    + change ((i0 + 1, j) :: rest) with ([(i0 + 1, j)] ++ rest).
      rewrite seg_sum_app, Hsum. unfold seg_sum at 1. simpl.
      destruct (Hleast i0) as (_ & Heq & _); [lia|].
      unfold dval at 2. rewrite HD. rewrite Heq by done. lia.
Qed.

Lemma positions_spec n best segs acc :
  shape (n + 1) (n + 1) best →
  (∀ L R, (L, R) ∈ segs → 1 ≤ L ∧ L ≤ R ∧ R ≤ n) →
  for_each segs (position_body best) acc
  = Ok (acc ++ ((λ seg, cell best seg.1 seg.2) <$> segs)).
Proof.
  intros Hshape. revert acc. induction segs as [|[L R] segs IH]; intros acc Hin; simpl.
  - by rewrite app_nil_r.
  - destruct (Hin L R) as (HL & HLR & HR); [left|].
    destruct (Z.leb_spec L R); [|lia].
    destruct (shape_cell _ _ best L R Hshape) as [b Hb]; [lia..|].
    rewrite (getitem2_cell best L R b) by (done || lia). simpl.
    rewrite IH by (intros; apply Hin; by right).
    rewrite Hb, <- app_assoc. done.
Qed.


(** ** The whole call *)

Lemma cost_is_cfun n cost : shape (n + 1) (n + 1) cost → cost_is n cost (cfun cost).
Proof.
  intros Hs i j Hi Hj. unfold cfun.
  destruct (shape_cell _ _ cost i j Hs) as [c ->]; (done || lia).
Qed.

(** Every stage of a feasible call returns, and this is what it returns. *)
Lemma run_spec n k w :
  1 ≤ k ≤ n → length w = Z.to_nat (n + 1) →
  ∃ ps cs ds segs,
    (prefix_stage n w = Ok ps ∧ st_w ps = w ∧
     arr_is (st_W ps) n (Wsum w) ∧ arr_is (st_XW ps) n (XWsum w)) ∧
    (cost_stage n (st_W ps) (st_XW ps) = Ok cs ∧
     shape (n + 1) (n + 1) (fst cs) ∧ shape (n + 1) (n + 1) (snd cs) ∧
     ∀ i j, 1 ≤ i ≤ j → j ≤ n → cost_cell_ok (Wsum w) (XWsum w) cs i j) ∧
    (dp_stage n k (fst cs) = Ok ds ∧ dp_table_ok n k (cfun (fst cs)) ds) ∧
    run n k w = Ok ((Fin (dval (fst ds) k n),
                     (λ seg, cell (snd cs) seg.1 seg.2) <$> segs, segs), w) ∧
    length segs = Z.to_nat k ∧ chain 1 segs n ∧
    seg_sum (cfun (fst cs)) segs = dval (fst ds) k n.
Proof.
  intros Hk Hlen.
  destruct (prefix_stage_spec n w) as (ps & Hps & Hw & HW & HXW); [lia|done|].
  destruct (cost_stage_spec n _ _ _ _ ltac:(lia) HW HXW) as (cs & Hcs & Hsc & Hsb & Hcells).
  destruct (dp_stage_spec n k _ (fst cs) ltac:(lia) ltac:(lia) (cost_is_cfun n _ Hsc))
    as (ds & Hds & HsD & HsC & Hok & _).
  destruct (backtrack_spec n k _ ds (Z.to_nat (k - 1)) Hok k n (Z.to_nat k) [])
    as (segs & Hbt & Hsl & Hch & Hsum); [lia..|].
  exists ps, cs, ds, (reverse segs).
  split; [done|]. split; [done|]. split; [done|].
  split; [|split; [rewrite length_reverse; lia|split; [done|by rewrite seg_sum_reverse]]].
  unfold run. rewrite Hps. simpl. rewrite Hcs. destruct cs as [cost best]. simpl in *.
  rewrite Hds. destruct ds as [DP choice]. simpl in *.
  rewrite (getitem2_cell DP k n (Fin (dval DP k n)));
    [|lia|lia|apply fin_cell_dval, (dp_table_fin n k (cfun cost) (DP, choice)); (done || lia)].
  simpl. rewrite Hbt. simpl.
  rewrite (positions_spec n best) by (done || intros L R; apply (chain_bounds 1 _ n); done).
  simpl. by rewrite Hw.
Qed.

Lemma fast_response_k_server_run n k w out w' :
  run n k w = Ok (out, w') → fast_response_k_server n k w = Ok out.
Proof. intros H. unfold fast_response_k_server. by rewrite H. Qed.

(** ** Chains, segment by segment *)

Lemma chain_head lo segs hi L R : chain lo segs hi → segs !! 0%nat = Some (L, R) → L = lo.
Proof. destruct segs as [|[L' R'] segs]; simpl; [done|]. intros (-> & _) [= -> _]. done. Qed.

Lemma chain_last lo segs hi L R : chain lo segs hi → last segs = Some (L, R) → R = hi.
Proof.
  revert lo. induction segs as [|[L' R'] segs IH]; simpl; intros lo; [done|].
  intros (-> & HLR & Hrest). destruct segs as [|seg segs].
  - simpl in *. intros [= _ ->]. lia.
  - intros Hlast. by apply (IH _ Hrest).
Qed.

Lemma chain_adjacent lo segs hi (m : nat) L R L' R' :
  chain lo segs hi → segs !! m = Some (L, R) → segs !! S m = Some (L', R') → R + 1 = L'.
Proof.
  revert lo m. induction segs as [|[L0 R0] segs IH]; simpl; intros lo m; [done|].
  intros (-> & HLR & Hrest). destruct m as [|m]; simpl.
  - intros [= -> ->] Hnext. symmetry. by apply (chain_head _ _ _ _ _ Hrest Hnext).
  - apply (IH _ _ Hrest).
Qed.

Lemma chain_ordered lo segs hi (m1 m2 : nat) L1 R1 L2 R2 :
  chain lo segs hi → (m1 < m2)%nat →
  segs !! m1 = Some (L1, R1) → segs !! m2 = Some (L2, R2) → R1 < L2.
Proof.
  revert lo m1 m2. induction segs as [|[L0 R0] segs IH]; simpl; intros lo m1 m2; [done|].
  intros (-> & HLR & Hrest) Hlt. destruct m2 as [|m2]; [lia|].
  destruct m1 as [|m1]; simpl.
  - intros [= -> ->] H2. apply list_elem_of_lookup_2 in H2.
    destruct (chain_bounds _ _ _ _ _ Hrest H2). lia.
  - apply (IH _ _ _ Hrest). lia.
Qed.

Lemma chain_covers lo segs hi p :
  chain lo segs hi → lo ≤ p ≤ hi →
  ∃ (m : nat) L R, segs !! m = Some (L, R) ∧ L ≤ p ≤ R.
Proof.
  revert lo. induction segs as [|[L0 R0] segs IH]; simpl; intros lo; [lia|].
  intros (-> & HLR & Hrest) Hp. destruct (Z.le_gt_cases p R0) as [Hle|Hgt].
  - exists 0%nat, lo, R0. split; [done|lia].
  - destruct (IH _ Hrest) as (m & L & R & Hm & HLp); [lia|].
    exists (S m), L, R. done.
Qed.

(** * The claims *)

(** Under non-negative weights a finished cost cell holds the brute-force
    minimum of its interval. *)
Lemma cost_cell_brute_force n w cs i j :
  nonneg_weights n w → 1 ≤ i ≤ j → j ≤ n →
  cost_cell_ok (Wsum w) (XWsum w) cs i j →
  cell (fst cs) i j = Some (brute_force_min w i j).
Proof.
  intros Hw Hi Hj (m & Hscan & _ & Hc).
  pose proof (scan_result_median n w i j m Hw Hi Hj Hscan) as Hmed.
  rewrite Hc, cost_formula_closed by (destruct Hmed; lia).
  by rewrite (brute_force_min_median n w i j m).
Qed.

(** C1. For every interval [1 ≤ i ≤ j ≤ n] and non-negative weights, the
    interval-cost stage stores in [cost[i][j]] the brute-force minimum over
    the server positions [m ∈ [i,j]] of [Σ_{p=i}^{j} w[p]·|p-m|]. *)
Theorem interval_cost_is_brute_force_min n w i j :
  length w = Z.to_nat (n + 1) → nonneg_weights n w → 1 ≤ i ≤ j → j ≤ n →
  ∃ ps cost best_server,
    prefix_stage n w = Ok ps ∧
    cost_stage n (st_W ps) (st_XW ps) = Ok (cost, best_server) ∧
    getitem2 cost i j = Ok (brute_force_min w i j).
Proof.
  intros Hlen Hw Hi Hj.
  destruct (prefix_stage_spec n w) as (ps & Hps & _ & HW & HXW); [lia|done|].
  destruct (cost_stage_spec n _ _ _ _ ltac:(lia) HW HXW) as ([cost best] & Hcs & _ & _ & Hcells).
  exists ps, cost, best. split; [done|]. split; [done|].
  apply getitem2_cell; [lia..|].
  apply (cost_cell_brute_force n w (cost, best)); auto.
Qed.

Lemma interval_cost_is_brute_force_min_witness :
  ∃ ps cost best_server,
    prefix_stage 4 [0; 3; 1; 4; 1] = Ok ps ∧
    cost_stage 4 (st_W ps) (st_XW ps) = Ok (cost, best_server) ∧
    getitem2 cost 2 4 = Ok (brute_force_min [0; 3; 1; 4; 1] 2 4).
Proof.
  apply (interval_cost_is_brute_force_min 4 [0; 3; 1; 4; 1] 2 4);
    [reflexivity|unfold nonneg_weights; simpl; repeat (constructor; [lia|]); constructor|lia|lia].
Defined.

(** C5. On the prefix-sum array of non-negative weights,
    [find_weighted_median(i, j, W)] returns the smallest position [p] of
    [[i,j]] with [W[p] ≥ W[i-1] + ceil((W[j]-W[i-1])/2)], the ceiling being
    [(total + 1) // 2]. *)
Theorem find_weighted_median_smallest n w i j :
  nonneg_weights n w → 1 ≤ i ≤ j → j ≤ n →
  let W := prefix_sum_array n w in
  let total := item W j - item W (i - 1) in
  let target := item W (i - 1) + (total + 1) `div` 2 in
  (∀ c, (total + 1) `div` 2 ≤ c ↔ total ≤ 2 * c) ∧
  ∃ m, find_weighted_median i j W = Ok m ∧
       i ≤ m ≤ j ∧ target ≤ item W m ∧ ∀ p, i ≤ p < m → item W p < target.
Proof.
  intros Hw Hi Hj W total target. split; [intros c; apply ceil_half_spec|].
  pose proof (prefix_sum_array_is n w ltac:(lia)) as HW. fold W in HW.
  destruct (find_weighted_median_scan W n (Wsum w) i j HW Hi Hj) as (m & Hm & Hscan).
  destruct (scan_result_median n w i j m Hw Hi Hj Hscan) as (Hr & Htg & Hbelow).
  assert (target = median_target (Wsum w) i j) as Htarget.
  { unfold target, total, median_target, ceil_half.
    by rewrite !(item_arr W n (Wsum w)) by (done || lia). }
  exists m. split; [done|]. split; [done|]. rewrite Htarget. split.
  - by rewrite (item_arr W n (Wsum w)) by (done || lia).
  - intros p Hp. rewrite (item_arr W n (Wsum w)) by (done || lia). by apply Hbelow.
Qed.

Lemma find_weighted_median_smallest_witness :
  let W := prefix_sum_array 4 [0; 3; 1; 4; 1] in
  let total := item W 4 - item W (2 - 1) in
  let target := item W (2 - 1) + (total + 1) `div` 2 in
  (∀ c, (total + 1) `div` 2 ≤ c ↔ total ≤ 2 * c) ∧
  ∃ m, find_weighted_median 2 4 W = Ok m ∧
       2 ≤ m ≤ 4 ∧ target ≤ item W m ∧ ∀ p, 2 ≤ p < m → item W p < target.
Proof.
  apply (find_weighted_median_smallest 4 [0; 3; 1; 4; 1] 2 4);
    [unfold nonneg_weights; simpl; repeat (constructor; [lia|]); constructor|lia|lia].
Defined.

(** C2. For [t ∈ [2,k]] and [j ∈ [t,n]] the DP stage leaves in [DP[t][j]]
    the minimum over [i ∈ [t-1, j-1]] of [DP[t-1][i] + cost[i+1][j]], and in
    [choice[t][j]] the smallest [i] attaining it: every candidate is finite,
    none is below [DP[t][j]], the one at [choice[t][j]] equals it, and those
    before it are strictly above. *)
Theorem dp_cell_is_least_split n k w t j :
  length w = Z.to_nat (n + 1) → 2 ≤ t ≤ k → t ≤ j → j ≤ n →
  ∃ ps cost best_server DP choice v i0,
    prefix_stage n w = Ok ps ∧
    cost_stage n (st_W ps) (st_XW ps) = Ok (cost, best_server) ∧
    dp_stage n k cost = Ok (DP, choice) ∧
    getitem2 DP t j = Ok (Fin v) ∧ getitem2 choice t j = Ok i0 ∧
    t - 1 ≤ i0 ≤ j - 1 ∧
    ∀ i, t - 1 ≤ i ≤ j - 1 →
      ∃ d c, getitem2 DP (t - 1) i = Ok (Fin d) ∧ getitem2 cost (i + 1) j = Ok c ∧
             v ≤ d + c ∧ (i = i0 → v = d + c) ∧ (i < i0 → v < d + c).
Proof.
  intros Hlen Ht Htj Hj.
  destruct (prefix_stage_spec n w) as (ps & Hps & _ & HW & HXW); [lia|done|].
  destruct (cost_stage_spec n _ _ _ _ ltac:(lia) HW HXW) as ([cost best] & Hcs & Hsc & _ & _).
  simpl in Hsc. pose proof (cost_is_cfun n cost Hsc) as Hcost.
  destruct (dp_stage_spec n k _ cost ltac:(lia) ltac:(lia) Hcost)
    as ([DP choice] & Hds & _ & _ & [_ Hcells] & _).
  destruct (Hcells t j) as (v & i0 & HD & HC & Hfin & Hr & Hleast); [lia..|]. simpl in *.
  exists ps, cost, best, DP, choice, v, i0.
  split; [done|]. split; [done|]. split; [done|].
  split; [apply getitem2_cell; (done || lia)|].
  split; [apply getitem2_cell; (done || lia)|]. split; [lia|].
  intros i Hi. exists (dval DP (t - 1) i), (cfun cost (i + 1) j).
  split; [apply getitem2_cell; [lia..|apply fin_cell_dval, Hfin; lia]|].
  split; [apply getitem2_cell; [lia..|apply Hcost; lia]|].
  apply Hleast. lia.
Qed.

Lemma dp_cell_is_least_split_witness :
  ∃ ps cost best_server DP choice v i0,
    prefix_stage 4 [0; 3; 1; 4; 1] = Ok ps ∧
    cost_stage 4 (st_W ps) (st_XW ps) = Ok (cost, best_server) ∧
    dp_stage 4 3 cost = Ok (DP, choice) ∧
    getitem2 DP 2 4 = Ok (Fin v) ∧ getitem2 choice 2 4 = Ok i0 ∧
    2 - 1 ≤ i0 ≤ 4 - 1 ∧
    ∀ i, 2 - 1 ≤ i ≤ 4 - 1 →
      ∃ d c, getitem2 DP (2 - 1) i = Ok (Fin d) ∧ getitem2 cost (i + 1) 4 = Ok c ∧
             v ≤ d + c ∧ (i = i0 → v = d + c) ∧ (i < i0 → v < d + c).
Proof.
  apply (dp_cell_is_least_split 4 3 [0; 3; 1; 4; 1] 2 4); [reflexivity|lia|lia|lia].
Defined.

(** C4. For [1 ≤ k ≤ n] the call returns exactly [k] segments
    [(L_1,R_1),...,(L_k,R_k)] with [L_1 = 1], [R_k = n], [L_m ≤ R_m] and
    [R_m + 1 = L_{m+1}]; they lie in left-to-right order, do not overlap, and
    every position of [[1,n]] falls in one of them. *)
Theorem segments_partition n k w :
  1 ≤ k ≤ n → length w = Z.to_nat (n + 1) →
  ∃ min_total_cost server_positions segments,
    fast_response_k_server n k w = Ok (min_total_cost, server_positions, segments) ∧
    length segments = Z.to_nat k ∧
    (∃ R1, segments !! 0%nat = Some (1, R1)) ∧
    (∃ Lk, last segments = Some (Lk, n)) ∧
    (∀ (m : nat) L R, segments !! m = Some (L, R) → L ≤ R) ∧
    (∀ (m : nat) L R L' R',
       segments !! m = Some (L, R) → segments !! S m = Some (L', R') → R + 1 = L') ∧
    (∀ (m1 m2 : nat) L1 R1 L2 R2,
       (m1 < m2)%nat → segments !! m1 = Some (L1, R1) → segments !! m2 = Some (L2, R2) →
       R1 < L2) ∧
    (∀ p, 1 ≤ p ≤ n → ∃ (m : nat) L R, segments !! m = Some (L, R) ∧ L ≤ p ≤ R).
Proof.
  intros Hk Hlen.
  destruct (run_spec n k w Hk Hlen) as (ps & cs & ds & segs & _ & _ & _ & Hrun & Hsl & Hch & _).
  do 3 eexists. split; [exact (fast_response_k_server_run _ _ _ _ _ Hrun)|].
  split; [done|]. repeat split.
  - destruct segs as [|[L R] segs]; [simpl in Hsl; lia|].
    exists R. simpl in *. by destruct Hch as (-> & _).
  - destruct (last segs) as [[L R]|] eqn:Hlast.
    + exists L. by rewrite (chain_last _ _ _ _ _ Hch Hlast).
    + apply last_None in Hlast. subst segs. simpl in Hsl. lia.
  - intros m L R Hm. apply list_elem_of_lookup_2 in Hm.
    destruct (chain_bounds _ _ _ _ _ Hch Hm). lia.
  - intros m L R L' R'. apply (chain_adjacent _ _ _ _ _ _ _ _ Hch).
  - intros m1 m2 L1 R1 L2 R2. apply (chain_ordered _ _ _ _ _ _ _ _ _ Hch).
  - intros p Hp. by apply (chain_covers 1 segs n).
Qed.

Lemma segments_partition_witness :
  ∃ min_total_cost server_positions segments,
    fast_response_k_server 5 3 [0; 5; 2; 0; 9; 1]
      = Ok (min_total_cost, server_positions, segments) ∧
    length segments = Z.to_nat 3 ∧
    (∃ R1, segments !! 0%nat = Some (1, R1)) ∧
    (∃ Lk, last segments = Some (Lk, 5)) ∧
    (∀ (m : nat) L R, segments !! m = Some (L, R) → L ≤ R) ∧
    (∀ (m : nat) L R L' R',
       segments !! m = Some (L, R) → segments !! S m = Some (L', R') → R + 1 = L') ∧
    (∀ (m1 m2 : nat) L1 R1 L2 R2,
       (m1 < m2)%nat → segments !! m1 = Some (L1, R1) → segments !! m2 = Some (L2, R2) →
       R1 < L2) ∧
    (∀ p, 1 ≤ p ≤ 5 → ∃ (m : nat) L R, segments !! m = Some (L, R) ∧ L ≤ p ≤ R).
Proof.
  apply (segments_partition 5 3 [0; 5; 2; 0; 9; 1]); [lia|reflexivity].
Defined.



(** C8. For [n = 4], [k = 2] and unit weights the call returns
    [min_total_cost = 2], [segments = [(1,1),(2,4)]] and
    [server_positions = [1,3]], whatever sits in the unused [w[0]]. *)
Theorem four_unit_clients_two_servers (w0 : Z) :
  fast_response_k_server 4 2 [w0; 1; 1; 1; 1]
  = Ok (Fin 2, [Some 1; Some 3], [(1, 1); (2, 4)]).
Proof. reflexivity. Qed.

(** ** More servers never cost more *)

Lemma median_exists n w i j :
  nonneg_weights n w → 1 ≤ i ≤ j → j ≤ n → ∃ m, is_median (Wsum w) i j m.
Proof.
  intros Hw Hi Hj.
  destruct (find_weighted_median_scan (prefix_sum_array n w) n (Wsum w) i j)
    as (m & _ & Hscan); [apply prefix_sum_array_is; lia|done..|].
  exists m. by apply (scan_result_median n).
Qed.

(** No server position, inside the interval or not, beats the brute-force
    minimum. *)
Lemma brute_force_min_le n w a b m :
  nonneg_weights n w → 1 ≤ a ≤ b → b ≤ n →
  brute_force_min w a b ≤ weighted_distance w a b m.
Proof.
  intros Hw Ha Hb.
  assert (∀ m', a ≤ m' ≤ b → brute_force_min w a b ≤ weighted_distance w a b m') as Hin.
  { intros m' Hm'. apply foldr_min_le, list_elem_of_fmap. exists m'.
    split; [done|]. apply elem_of_range. lia. }
  pose proof (Wsum_mono n w (a - 1) b Hw ltac:(lia) Hb) as Hmono.
  destruct (Z.lt_ge_cases m a) as [Hlt|Hge]; [|destruct (Z.le_gt_cases m b) as [Hle|Hgt]].
  - specialize (Hin a ltac:(lia)).
    rewrite weighted_distance_right in Hin |- * by lia. nia.
  - apply Hin. lia.
  - specialize (Hin b ltac:(lia)).
    rewrite weighted_distance_left in Hin |- * by lia. nia.
Qed.

Lemma brute_force_min_split n w a c b :
  nonneg_weights n w → 1 ≤ a ≤ c → c < b → b ≤ n →
  brute_force_min w a c + brute_force_min w (c + 1) b ≤ brute_force_min w a b.
Proof.
  intros Hw Ha Hc Hb.
  destruct (median_exists n w a b Hw ltac:(lia) Hb) as (m & Hmed).
  rewrite (brute_force_min_median n w a b m) by (done || lia).
  rewrite <- weighted_distance_closed by (destruct Hmed; lia).
  rewrite (weighted_distance_split w a b m c) by lia.
  pose proof (brute_force_min_le n w a c m Hw ltac:(lia) ltac:(lia)).
  pose proof (brute_force_min_le n w (c + 1) b m Hw ltac:(lia) ltac:(lia)).
  lia.
Qed.

Lemma brute_force_min_single n w i :
  nonneg_weights n w → 1 ≤ i ≤ n → brute_force_min w i i = 0.
Proof.
  intros Hw Hi.
  destruct (median_exists n w i i Hw ltac:(lia) ltac:(lia)) as (m & Hmed).
  rewrite (brute_force_min_median n w i i m) by (done || lia).
  assert (m = i) as -> by (destruct Hmed; lia).
  rewrite <- weighted_distance_closed by lia.
  rewrite weighted_distance_last, weighted_distance_empty by lia.
  rewrite Z.sub_diag. simpl. lia.
Qed.

Section DPMonotone.
Variables (n k : Z) (cf : Z → Z → Z).
Variable s : list (list cost_val) * list (list Z).
Hypothesis Hok : dp_table_ok n k cf s.
Hypothesis Hsingle : ∀ i, 1 ≤ i ≤ n → cf i i = 0.
Hypothesis Hsplit :
  ∀ a c b, 1 ≤ a ≤ c → c < b → b ≤ n → cf a c + cf (c + 1) b ≤ cf a b.

Lemma dp_first_value j : 1 ≤ k → 1 ≤ j ≤ n → dval (fst s) 1 j = cf 1 j.
Proof.
  intros Hk Hj. destruct Hok as [Hfirst _]. destruct (Hfirst j Hj) as [HD _].
  unfold dval. by rewrite HD.
Qed.

Lemma dp_later_value t j :
  2 ≤ t ≤ k → t ≤ j → j ≤ n →
  ∃ i0, least_split cf (fst s) t j j (dval (fst s) t j) i0.
Proof.
  intros Ht Htj Hj. destruct Hok as [_ Hcells].
  destruct (Hcells t j) as (v & i0 & HD & _ & _ & Hleast); [lia..|].
  exists i0. unfold dval at 1. by rewrite HD.
Qed.

Lemma dp_diagonal (tn : nat) :
  ∀ t, t = Z.of_nat (S tn) → t ≤ k → t ≤ n → dval (fst s) t t = 0.
Proof.
  induction tn as [|tn IH]; intros t Ht Hk Hn.
  - assert (t = 1) as -> by lia. rewrite dp_first_value by lia. apply Hsingle. lia.
  - destruct (dp_later_value t t) as (i0 & Hr & Hleast); [lia..|].
    destruct (Hleast i0) as (_ & Heq & _); [lia|]. rewrite Heq by done.
    assert (i0 = t - 1) as -> by lia. rewrite (IH (t - 1)) by lia.
    replace (t - 1 + 1) with t by lia. rewrite Hsingle; lia.
Qed.

Lemma dp_one_more_server (tn : nat) :
  ∀ t j, t = Z.of_nat (S tn) → t + 1 ≤ k → t < j → j ≤ n →
         dval (fst s) (t + 1) j ≤ dval (fst s) t j.
Proof.
  induction tn as [|tn IH]; intros t j Ht Hk Htj Hj.
  - assert (t = 1) as -> by lia.
    destruct (dp_later_value 2 j) as (i0 & Hr & Hleast); [lia..|].
    destruct (Hleast 1) as (Hle & _); [lia|].
    replace (2 - 1) with 1 in Hle by lia.
    rewrite dp_first_value in Hle |- * by lia.
    pose proof (Hsplit 1 1 j ltac:(lia) ltac:(lia) Hj).
    pose proof (Hsingle 1 ltac:(lia)).
    change (1 + 1) with 2 in *. lia.
  - destruct (dp_later_value (t + 1) j) as (i1 & Hr1 & Hleast1); [lia..|].
    destruct (dp_later_value t j) as (i0 & Hr0 & Hleast0); [lia..|].
    destruct (Hleast0 i0) as (_ & Heq0 & _); [lia|]. specialize (Heq0 eq_refl).
    replace (t + 1 - 1) with t in Hleast1 by lia.
    destruct (decide (i0 = t - 1)) as [Hi0|Hi0].
    + destruct (Hleast1 t) as (Hle & _); [lia|].
      rewrite (dp_diagonal (S tn) t) in Hle by lia.
      rewrite Hi0, (dp_diagonal tn (t - 1)) in Heq0 by lia.
      replace (t - 1 + 1) with t in Heq0 by lia.
      pose proof (Hsplit t t j ltac:(lia) ltac:(lia) Hj).
      pose proof (Hsingle t ltac:(lia)). lia.
    + destruct (Hleast1 i0) as (Hle & _); [lia|].
      specialize (IH (t - 1) i0 ltac:(lia) ltac:(lia) ltac:(lia) ltac:(lia)).
      replace (t - 1 + 1) with t in IH by lia. lia.
Qed.

Lemma dp_more_servers (d : nat) :
  ∀ t1 t2, t2 = t1 + Z.of_nat d → 1 ≤ t1 → t2 ≤ k → t2 ≤ n →
           dval (fst s) t2 n ≤ dval (fst s) t1 n.
Proof.
  induction d as [|d IH]; intros t1 t2 Ht2 Ht1 Hk Hn.
  - assert (t2 = t1) as -> by lia. lia.
  - specialize (IH t1 (t2 - 1) ltac:(lia) ltac:(lia) ltac:(lia) ltac:(lia)).
    pose proof (dp_one_more_server (Z.to_nat (t2 - 2)) (t2 - 1) n
                  ltac:(lia) ltac:(lia) ltac:(lia) ltac:(lia)) as Hstep.
    replace (t2 - 1 + 1) with t2 in Hstep by lia. lia.
Qed.
End DPMonotone.

(** The rows two runs share hold the same values, whatever [k] each run has. *)
Lemma dp_table_agree n cf k1 s1 k2 s2 (tn : nat) :
  dp_table_ok n k1 cf s1 → dp_table_ok n k2 cf s2 →
  ∀ t j, t = Z.of_nat (S tn) → t ≤ k1 → t ≤ k2 → t ≤ j → j ≤ n →
         dval (fst s1) t j = dval (fst s2) t j.
Proof.
  intros H1 H2. induction tn as [|tn IH]; intros t j Ht Hk1 Hk2 Htj Hj.
  - assert (t = 1) as -> by lia.
    rewrite (dp_first_value n k1 cf s1), (dp_first_value n k2 cf s2) by (done || lia). done.
  - destruct (dp_later_value n k1 cf s1 H1 t j) as (i1 & Hr1 & Hl1); [lia..|].
    destruct (dp_later_value n k2 cf s2 H2 t j) as (i2 & Hr2 & Hl2); [lia..|].
    destruct (Hl1 i1) as (_ & He1 & _); [lia|]. destruct (Hl1 i2) as (Hle1 & _); [lia|].
    destruct (Hl2 i2) as (_ & He2 & _); [lia|]. destruct (Hl2 i1) as (Hle2 & _); [lia|].
    rewrite (IH (t - 1) i1) in * by lia. rewrite (IH (t - 1) i2) in * by lia.
    specialize (He1 eq_refl). specialize (He2 eq_refl). lia.
Qed.

(** C7. For fixed [n] and non-negative weights the returned minimum total
    cost does not increase as the number of servers grows from 1 to [n], and
    with [n] servers it is 0. *)
Theorem min_total_cost_nonincreasing n w :
  1 ≤ n → length w = Z.to_nat (n + 1) → nonneg_weights n w →
  (∀ t1 t2, 1 ≤ t1 ≤ t2 → t2 ≤ n →
     ∃ v1 positions1 segments1 v2 positions2 segments2,
       fast_response_k_server n t1 w = Ok (Fin v1, positions1, segments1) ∧
       fast_response_k_server n t2 w = Ok (Fin v2, positions2, segments2) ∧
       v2 ≤ v1) ∧
  (∃ positions segments,
     fast_response_k_server n n w = Ok (Fin 0, positions, segments)).
Proof.
  intros Hn Hlen Hw.
  assert (∀ k, 1 ≤ k ≤ n →
    ∃ cost ds positions segments,
      fast_response_k_server n k w = Ok (Fin (dval (fst ds) k n), positions, segments) ∧
      dp_table_ok n k (cfun cost) ds ∧
      (∀ i j, 1 ≤ i ≤ j → j ≤ n → cfun cost i j = brute_force_min w i j) ∧
      ∀ ps cs, prefix_stage n w = Ok ps →
               cost_stage n (st_W ps) (st_XW ps) = Ok cs → fst cs = cost) as Hrun.
  { intros k Hk.
    destruct (run_spec n k w Hk Hlen)
      as (ps & cs & ds & segs & (Hps & _) & (Hcs & _ & _ & Hcells) & (_ & Hok) & Hrun & _).
    exists (fst cs), ds. do 2 eexists.
    split; [exact (fast_response_k_server_run _ _ _ _ _ Hrun)|]. split; [done|]. split.
    - intros i j Hi Hj. unfold cfun.
      by rewrite (cost_cell_brute_force n w cs i j Hw Hi Hj (Hcells i j Hi Hj)).
    - intros ps' cs' Hps' Hcs'. congruence. }
  assert (∀ cost, (∀ i j, 1 ≤ i ≤ j → j ≤ n → cfun cost i j = brute_force_min w i j) →
    (∀ i, 1 ≤ i ≤ n → cfun cost i i = 0) ∧
    (∀ a c b, 1 ≤ a ≤ c → c < b → b ≤ n →
       cfun cost a c + cfun cost (c + 1) b ≤ cfun cost a b)) as Hcf.
  { intros cost Hcost. split.
    - intros i Hi. rewrite Hcost by lia. by apply (brute_force_min_single n).
    - intros a c b Ha Hc Hb. rewrite !Hcost by lia. by apply (brute_force_min_split n). }
  split.
  - intros t1 t2 Ht1 Ht2.
    destruct (Hrun t1 ltac:(lia)) as (cost1 & ds1 & pos1 & segs1 & Hr1 & Hok1 & _ & Hsame1).
    destruct (Hrun t2 ltac:(lia)) as (cost2 & ds2 & pos2 & segs2 & Hr2 & Hok2 & Hcost2 & Hsame2).
    assert (cost1 = cost2) as ->.
    { destruct (prefix_stage_spec n w) as (ps & Hps & _ & HW & HXW); [lia|done|].
      destruct (cost_stage_spec n _ _ _ _ ltac:(lia) HW HXW) as (cs & Hcs & _).
      by rewrite <- (Hsame1 ps cs), <- (Hsame2 ps cs). }
    destruct (Hcf cost2 Hcost2) as [Hsingle Hsplit].
    do 6 eexists. split; [exact Hr1|]. split; [exact Hr2|].
    rewrite (dp_table_agree n (cfun cost2) t1 ds1 t2 ds2 (Z.to_nat (t1 - 1)) Hok1 Hok2 t1 n)
      by lia.
    apply (dp_more_servers n t2 (cfun cost2) ds2 Hok2 Hsingle Hsplit (Z.to_nat (t2 - t1))); lia.
  - destruct (Hrun n ltac:(lia)) as (cost & ds & pos & segs & Hr & Hok & Hcost & _).
    destruct (Hcf cost Hcost) as [Hsingle _].
    exists pos, segs.
    by rewrite (dp_diagonal n n (cfun cost) ds Hok Hsingle (Z.to_nat (n - 1)) n) in Hr by lia.
Qed.

Lemma min_total_cost_nonincreasing_witness :
  (∀ t1 t2, 1 ≤ t1 ≤ t2 → t2 ≤ 5 →
     ∃ v1 positions1 segments1 v2 positions2 segments2,
       fast_response_k_server 5 t1 [0; 5; 2; 0; 9; 1] = Ok (Fin v1, positions1, segments1) ∧
       fast_response_k_server 5 t2 [0; 5; 2; 0; 9; 1] = Ok (Fin v2, positions2, segments2) ∧
       v2 ≤ v1) ∧
  (∃ positions segments,
     fast_response_k_server 5 5 [0; 5; 2; 0; 9; 1] = Ok (Fin 0, positions, segments)).
Proof.
  apply (min_total_cost_nonincreasing 5 [0; 5; 2; 0; 9; 1]);
    [lia|reflexivity|unfold nonneg_weights; simpl; repeat (constructor; [lia|]); constructor].
Defined.

(** ** The two copies of the algorithm *)

Lemma bind_Ok {A B} (m : result A) (f : A → result B) b :
  m ≫= f = Ok b → ∃ a, m = Ok a ∧ f a = Ok b.
Proof. destruct m as [a| |]; simpl; [eauto|done|done]. Qed.

Lemma append_loop_replicate {A X} (x : A) (xs : list X) acc :
  for_each xs (λ _ row, Ok (row ++ [x])) acc = Ok (acc ++ replicate (length xs) x).
Proof.
  revert acc. induction xs as [|y xs IH]; intros acc; simpl.
  - by rewrite app_nil_r.
  - rewrite IH, <- app_assoc. done.
Qed.

Lemma append_loop_const {A X} (r : A) (body : X → list A → result (list A)) xs acc :
  (∀ y T, body y T = Ok (T ++ [r])) →
  for_each xs body acc = Ok (acc ++ ((λ _, r) <$> xs)).
Proof.
  intros Hbody. revert acc. induction xs as [|y xs IH]; intros acc; simpl.
  - by rewrite app_nil_r.
  - rewrite Hbody. simpl. rewrite IH, <- app_assoc. done.
Qed.

Lemma build_table_new_table {A} (x : A) n rows :
  FastKServerCopy.build_table x n rows = Ok (new_table x n rows).
Proof.
  unfold FastKServerCopy.build_table, new_table.
  rewrite (append_loop_const (repeat_list x (n + 1)) _ (range 0 rows) []); [done|].
  intros _ T. rewrite append_loop_replicate, length_range. simpl. unfold repeat_list.
  by replace (n + 1 - 0) with (n + 1) by lia.
Qed.

Lemma prefix_body_copy i s :
  FastKServerCopy.prefix_body i (to_copy s) = to_copy <$> prefix_body i s.
Proof.
  unfold FastKServerCopy.prefix_body, prefix_body. destruct s as [w W XW]. simpl.
  destruct (getitem W (i - 1)); simpl; [|done..].
  destruct (getitem w i); simpl; [|done..].
  destruct (setitem W i _); simpl; [|done..].
  destruct (getitem XW (i - 1)); simpl; [|done..].
  destruct (setitem XW i _); simpl; done.
Qed.

Lemma prefix_loop_copy xs s :
  for_each xs FastKServerCopy.prefix_body (to_copy s)
  = to_copy <$> for_each xs prefix_body s.
Proof.
  revert s. induction xs as [|x xs IH]; intros s; simpl; [done|].
  rewrite prefix_body_copy. destruct (prefix_body x s); simpl; [apply IH|done..].
Qed.

Lemma cost_stage_copy n W XW : FastKServerCopy.cost_stage n W XW = cost_stage n W XW.
Proof.
  unfold FastKServerCopy.cost_stage. rewrite build_table_new_table. simpl. reflexivity.
Qed.

Lemma dp_stage_copy n k cost : FastKServerCopy.dp_stage n k cost = dp_stage n k cost.
Proof.
  unfold FastKServerCopy.dp_stage. rewrite !build_table_new_table. simpl. reflexivity.
Qed.

Lemma run_copy n k w : FastKServerCopy.run n k w = run n k w.
Proof.
  unfold FastKServerCopy.run, run, FastKServerCopy.prefix_stage, prefix_stage.
  change (FastKServerCopy.PrefixState w (repeat_list 0 (n + 1)) (repeat_list 0 (n + 1)))
    with (to_copy (PrefixState w (repeat_list 0 (n + 1)) (repeat_list 0 (n + 1)))).
  rewrite prefix_loop_copy.
  destruct (for_each (range 1 (n + 1)) prefix_body _) as [s| |]; simpl; [|done..].
  rewrite cost_stage_copy.
  destruct (cost_stage n (st_W s) (st_XW s)) as [[cost best]| |]; simpl; [|done..].
  rewrite dp_stage_copy. reflexivity.
Qed.

(** C9. The function of [Fastkserver.py] and the one of its sibling copy are
    extensionally equal: on every input both raise, or both return the same
    [(min_total_cost, server_positions, segments)]. *)
Theorem copies_agree n k w :
  FastKServerCopy.fast_response_k_server n k w = Fastkserver.fast_response_k_server n k w.
Proof.
  unfold FastKServerCopy.fast_response_k_server, fast_response_k_server.
  by rewrite run_copy.
Qed.

(** ** The input list is only read *)

Lemma prefix_body_frame i s s' : prefix_body i s = Ok s' → st_w s' = st_w s.
Proof.
  unfold prefix_body. intros H.
  repeat (apply bind_Ok in H as (? & _ & H)). by injection H as <-.
Qed.

Lemma prefix_loop_frame xs s s' : for_each xs prefix_body s = Ok s' → st_w s' = st_w s.
Proof.
  revert s. induction xs as [|x xs IH]; intros s; simpl.
  - by intros [= ->].
  - intros (s1 & H1 & H2)%bind_Ok. rewrite (IH _ H2). by apply (prefix_body_frame x).
Qed.

(** C10. A call leaves the weight list as it found it: when it returns, the
    list object [w] holds the entries it held before (in either copy). *)
Theorem weights_unchanged n k w out w' :
  run n k w = Ok (out, w') ∨ FastKServerCopy.run n k w = Ok (out, w') →
  fast_response_k_server n k w = Ok out ∧ w' = w.
Proof.
  rewrite run_copy. intros H. assert (run n k w = Ok (out, w')) as Hrun by tauto.
  split; [by apply (fast_response_k_server_run n k w out w')|].
  unfold run in Hrun.
  apply bind_Ok in Hrun as (s & Hs & Hrun).
  apply bind_Ok in Hrun as ([cost best] & _ & Hrun).
  apply bind_Ok in Hrun as ([DP choice] & _ & Hrun).
  apply bind_Ok in Hrun as (mc & _ & Hrun).
  apply bind_Ok in Hrun as (segs & _ & Hrun).
  apply bind_Ok in Hrun as (pos & _ & Hrun).
  injection Hrun as _ <-. by apply (prefix_loop_frame _ _ _ Hs).
Qed.

Lemma weights_unchanged_witness :
  fast_response_k_server 4 2 [7; 1; 1; 1; 1]
    = Ok (Fin 2, [Some 1; Some 3], [(1, 1); (2, 4)]) ∧
  [7; 1; 1; 1; 1] = [7; 1; 1; 1; 1].
Proof.
  apply (weights_unchanged 4 2 [7; 1; 1; 1; 1]
           (Fin 2, [Some 1; Some 3], [(1, 1); (2, 4)]) [7; 1; 1; 1; 1]).
  left. reflexivity.
Defined.

(** ** More servers than clients *)

Lemma getitem_wrap {A} (l : list A) (c j : Z) :
  Z.of_nat (length l) = c → 1 ≤ c → -1 ≤ j < c →
  ∃ v, getitem l j = Ok v ∧ l !! Z.to_nat (if j <? 0 then c - 1 else j) = Some v.
Proof.
  intros Hlen Hc Hj. unfold getitem, index_of.
  destruct (Z.ltb_spec j 0) as [Hneg|Hpos].
  - assert (j = -1) as -> by lia.
    destruct (Z.leb_spec 0 (-1 + Z.of_nat (length l))); [|lia].
    destruct (Z.ltb_spec (-1 + Z.of_nat (length l)) (Z.of_nat (length l))); [|lia]. simpl.
    replace (-1 + Z.of_nat (length l)) with (c - 1) by lia.
    destruct (lookup_lt_is_Some_2 l (Z.to_nat (c - 1))) as [v Hv]; [lia|].
    rewrite Hv. eauto.
  - destruct (Z.leb_spec 0 j); [|lia].
    destruct (Z.ltb_spec j (Z.of_nat (length l))); [|lia]. simpl.
    destruct (lookup_lt_is_Some_2 l (Z.to_nat j)) as [v Hv]; [lia|].
    rewrite Hv. eauto.
Qed.

Lemma getitem2_wrap {A} r c (T : list (list A)) i j :
  shape r c T → 0 ≤ i < r → 1 ≤ c → -1 ≤ j < c →
  ∃ v, getitem2 T i j = Ok v ∧ cell T i (if j <? 0 then c - 1 else j) = Some v.
Proof.
  intros [Hlen Hrows] Hi Hc Hj. unfold getitem2, cell.
  destruct (lookup_lt_is_Some_2 T (Z.to_nat i)) as [row Hrow]; [lia|].
  rewrite (getitem_lookup T i row) by (done || lia). simpl. rewrite Hrow.
  apply getitem_wrap; [|done..].
  rewrite Forall_lookup in Hrows. rewrite (Hrows _ _ Hrow). lia.
Qed.

Lemma dp_choice_in_range n k cf s :
  1 ≤ n → dp_table_ok n k cf s →
  (∀ t j, 1 ≤ t ≤ k → 0 ≤ j < t → j ≤ n → unset_ok s t j) →
  choice_in_range n k (snd s).
Proof.
  intros Hn [Hfirst Hcells] Hunset t j Ht Hj.
  destruct (Z.lt_ge_cases j t) as [Hlt|Hge].
  - destruct (Hunset t j) as [_ HC]; [lia..|]. exists (-1). split; [done|lia].
  - destruct (decide (t = 1)) as [->|Hne].
    + destruct (Hfirst j) as [_ HC]; [lia|]. exists 0. split; [done|lia].
    + destruct (Hcells t j) as (v & i0 & _ & HC & _ & Hr & _); [lia..|].
      exists i0. split; [done|lia].
Qed.

(** With [choice] in range the backtracking loop never raises, whatever
    row and column it starts from. *)
Lemma backtrack_total n k choice (tn : nat) :
  1 ≤ n → shape (k + 1) (n + 1) choice → choice_in_range n k choice →
  ∀ t j fuel acc,
    t = Z.of_nat tn → t ≤ k → -1 ≤ j ≤ n → (tn ≤ fuel)%nat →
    ∃ segs, backtrack fuel choice t j acc = Ok (acc ++ segs) ∧
            Forall (seg_in_table n) segs ∧
            (1 ≤ t → ∃ L rest, segs = (L, j) :: rest).
Proof.
  intros Hn Hshape Hrange. induction tn as [|tn IH]; intros t j fuel acc Ht Hk Hj Hfuel.
  - subst t. exists []. rewrite app_nil_r. split; [by destruct fuel|].
    split; [constructor|lia].
  - destruct fuel as [|fuel]; [lia|].
    change (backtrack (S fuel) choice t j acc) with
      (if t >? 0 then
         i ← getitem2 choice t j; backtrack fuel choice (t - 1) i (acc ++ [(i + 1, j)])
       else Ok acc).
    destruct (Z.gtb_spec t 0); [|lia].
    destruct (getitem2_wrap _ _ choice t j Hshape) as (i & -> & Hcell); [lia..|]. simpl.
    destruct (Hrange t (if j <? 0 then n + 1 - 1 else j)) as (c & Hc & Hcr);
      [lia|destruct (j <? 0) eqn:E; lia|].
    assert (i = c) as -> by congruence.
    destruct (IH (t - 1) c fuel (acc ++ [(c + 1, j)])) as (rest & -> & Hall & _); [lia..|].
    exists ((c + 1, j) :: rest). rewrite <- app_assoc. split; [done|]. split.
    + constructor; [|done]. unfold seg_in_table. simpl. lia.
    + intros _. eauto.
Qed.

Lemma positions_total n best segs acc :
  shape (n + 1) (n + 1) best → Forall (seg_in_table n) segs →
  for_each segs (position_body best) acc = Ok (acc ++ (position_of best <$> segs)).
Proof.
  intros Hshape Hall. revert acc.
  induction Hall as [|[L R] segs [HL HR] _ IH]; intros acc; simpl.
  - by rewrite app_nil_r.
  - simpl in HL, HR. unfold position_of at 1. simpl. destruct (Z.leb_spec L R).
    + destruct (shape_cell _ _ best L R Hshape) as [b Hb]; [lia..|].
      rewrite (getitem2_cell best L R b) by (done || lia). simpl.
      rewrite IH, Hb, <- app_assoc. done.
    + simpl. rewrite IH, <- app_assoc. done.
Qed.

(** Whenever [k > n ≥ 1] the call raises nothing: it returns [inf] as the
    cost together with a position list that holds [None]. *)
Lemma more_servers_than_clients n k w :
  1 ≤ n → n < k → length w = Z.to_nat (n + 1) →
  ∃ server_positions segments,
    fast_response_k_server n k w = Ok (Inf, server_positions, segments) ∧
    None ∈ server_positions.
Proof.
  intros Hn Hk Hlen.
  destruct (prefix_stage_spec n w) as (ps & Hps & _ & HW & HXW); [lia|done|].
  destruct (cost_stage_spec n _ _ _ _ ltac:(lia) HW HXW) as ([cost best] & Hcs & Hsc & Hsb & _).
  simpl in Hsc, Hsb.
  destruct (dp_stage_spec n k _ cost ltac:(lia) ltac:(lia) (cost_is_cfun n _ Hsc))
    as ([DP choice] & Hds & HsD & HsC & Hok & Hunset).
  pose proof (dp_choice_in_range n k _ _ Hn Hok Hunset) as Hrange. simpl in HsD, HsC, Hrange.
  destruct (Hunset k n) as [HDkn HCkn]; [lia..|]. simpl in HDkn, HCkn.
  destruct (backtrack_total n k choice (Z.to_nat k) Hn HsC Hrange k n (Z.to_nat k) [])
    as (segs & Hbt & Hall & Hhd); [lia..|].
  (* the first two rounds: [(0, n)], then a segment that ends at [-1] *)
  assert (∃ L rest, segs = (0, n) :: (L, -1) :: rest) as (L & rest & Hsegs).
  { destruct (Z.to_nat k) as [|fuel] eqn:Hfuel; [lia|].
    change (backtrack (S fuel) choice k n []) with
      (if k >? 0 then
         i ← getitem2 choice k n; backtrack fuel choice (k - 1) i ([] ++ [(i + 1, n)])
       else Ok []) in Hbt.
    destruct (Z.gtb_spec k 0); [|lia].
    rewrite (getitem2_cell choice k n (-1)) in Hbt by (done || lia). simpl in Hbt.
    destruct (backtrack_total n k choice fuel Hn HsC Hrange (k - 1) (-1) fuel [(0, n)])
      as (segs' & Hbt' & _ & Hhd'); [lia..|].
    destruct Hhd' as (L & rest & ->); [lia|].
    change (-1 + 1) with 0 in Hbt. rewrite Hbt' in Hbt. injection Hbt as <-. eauto. }
  exists (position_of best <$> reverse segs), (reverse segs). split.
  - unfold fast_response_k_server, run. rewrite Hps. simpl. rewrite Hcs. simpl.
    rewrite Hds. simpl. rewrite (getitem2_cell DP k n Inf) by (done || lia). simpl.
    rewrite Hbt. simpl.
    rewrite (positions_total n best) by (done || by apply Forall_reverse). done.
  - apply list_elem_of_fmap. exists (L, -1). split.
    + unfold position_of. simpl.
      assert (0 ≤ L) by (subst segs; inversion Hall as [|? ? _ Hall']; 
                         inversion Hall' as [|? ? [HL _] _]; simpl in HL; lia).
      destruct (Z.leb_spec L (-1)); [lia|done].
    + rewrite elem_of_reverse. subst segs. right. left.
Qed.

(** C3 (the code breaks it). A call with [k > n] must raise and never
    return a result with a [None] position; the code has no such check.
    With [k = 2 > n = 1] and [w = [0, 5]] the call does return: it gives
    [inf], a position list holding [None], and segments that are no
    partition. *)
Lemma two_servers_one_client :
  ¬ (∀ out, fast_response_k_server 1 2 [0; 5] ≠ Ok out) ∧
  fast_response_k_server 1 2 [0; 5] = Ok (Inf, [None; Some 0], [(1, -1); (0, 1)]).
Proof.
  split; [|reflexivity]. intros Hraise.
  apply (Hraise (Inf, [None; Some 0], [(1, -1); (0, 1)])). reflexivity.
Qed.

(** ** The fuel of the backtracking loop *)

Lemma getitem_not_out_of_fuel {A} (l : list A) i : getitem l i ≠ OutOfFuel.
Proof.
  unfold getitem, index_of.
  destruct ((0 <=? _) && _); simpl; [|done]. by destruct (l !! _).
Qed.

Lemma getitem2_not_out_of_fuel {A} (T : list (list A)) i j : getitem2 T i j ≠ OutOfFuel.
Proof.
  unfold getitem2. pose proof (getitem_not_out_of_fuel T i).
  destruct (getitem T i); simpl; [apply getitem_not_out_of_fuel|done..].
Qed.

(** [Z.to_nat t] rounds of fuel are enough for [while t > 0]. *)
Lemma backtrack_fuel fuel choice t j acc :
  (Z.to_nat t ≤ fuel)%nat → backtrack fuel choice t j acc ≠ OutOfFuel.
Proof.
  revert t j acc. induction fuel as [|fuel IH]; intros t j acc Hfuel.
  - simpl. destruct (Z.gtb_spec t 0); [lia|done].
  - change (backtrack (S fuel) choice t j acc) with
      (if t >? 0 then
         i ← getitem2 choice t j; backtrack fuel choice (t - 1) i (acc ++ [(i + 1, j)])
       else Ok acc).
    destruct (Z.gtb_spec t 0); [|done].
    pose proof (getitem2_not_out_of_fuel choice t j).
    destruct (getitem2 choice t j); simpl; [apply IH; lia|done..].
Qed.

Lemma setitem_not_out_of_fuel {A} (l : list A) i v : setitem l i v ≠ OutOfFuel.
Proof. unfold setitem, index_of. by destruct ((0 <=? _) && _). Qed.

Lemma bind_not_out_of_fuel {A B} (m : result A) (f : A → result B) :
  m ≠ OutOfFuel → (∀ a, f a ≠ OutOfFuel) → m ≫= f ≠ OutOfFuel.
Proof. intros Hm Hf. destruct m; simpl; auto. Qed.

Lemma for_each_not_out_of_fuel {S X} (xs : list X) (body : X → S → result S) s :
  (∀ x s, body x s ≠ OutOfFuel) → for_each xs body s ≠ OutOfFuel.
Proof.
  intros Hbody. revert s. induction xs as [|x xs IH]; intros s; simpl; [done|].
  apply bind_not_out_of_fuel; auto.
Qed.

Lemma setitem2_not_out_of_fuel {A} (T : list (list A)) i j v :
  setitem2 T i j v ≠ OutOfFuel.
Proof.
  unfold setitem2.
  apply bind_not_out_of_fuel; [apply getitem_not_out_of_fuel|intros row].
  apply bind_not_out_of_fuel; [apply setitem_not_out_of_fuel|intros row'].
  apply setitem_not_out_of_fuel.
Qed.

Ltac no_out_of_fuel :=
  repeat first
    [ done
    | apply getitem_not_out_of_fuel | apply getitem2_not_out_of_fuel
    | apply setitem_not_out_of_fuel | apply setitem2_not_out_of_fuel
    | apply backtrack_fuel; lia
    | apply for_each_not_out_of_fuel; intros ? ?
    | apply bind_not_out_of_fuel; [|intros ?]
    | match goal with
      | |- context [if ?b then _ else _] => destruct b
      | |- context [let '(_, _) := ?s in _] => destruct s
      end ].

Lemma median_scan_not_out_of_fuel W target ps m : median_scan W target ps m ≠ OutOfFuel.
Proof.
  induction ps as [|pos ps IH]; simpl; [done|].
  apply bind_not_out_of_fuel; [apply getitem_not_out_of_fuel|].
  intros Wpos. by destruct (Wpos >=? target).
Qed.

(** A call never runs out of fuel: it returns or raises [IndexError]. *)
Lemma fast_response_k_server_not_out_of_fuel n k w :
  fast_response_k_server n k w ≠ OutOfFuel.
Proof.
  assert (run n k w ≠ OutOfFuel) as Hrun.
  { unfold run, prefix_stage, cost_stage, dp_stage.
    apply bind_not_out_of_fuel; [|intros ps].
    { unfold prefix_body. no_out_of_fuel. }
    apply bind_not_out_of_fuel; [|intros [cost best]].
    { apply for_each_not_out_of_fuel. intros i s.
      apply for_each_not_out_of_fuel. intros j [c b]. unfold cost_body.
      apply bind_not_out_of_fuel; [|intros m].
      { unfold find_weighted_median.
        repeat (apply bind_not_out_of_fuel; [apply getitem_not_out_of_fuel|intros ?]).
        apply median_scan_not_out_of_fuel. }
      no_out_of_fuel. }
    apply bind_not_out_of_fuel; [|intros [DP choice]].
    { apply bind_not_out_of_fuel; [apply setitem2_not_out_of_fuel|intros DP].
      apply bind_not_out_of_fuel; [|intros s].
      - apply for_each_not_out_of_fuel. intros j [D c]. unfold dp_first_row. no_out_of_fuel.
      - apply for_each_not_out_of_fuel. intros t s1.
        apply for_each_not_out_of_fuel. intros j [D c]. unfold dp_cell.
        destruct (j <? t); [done|].
        apply bind_not_out_of_fuel; [|intros [bv bi]; no_out_of_fuel].
        apply for_each_not_out_of_fuel. intros i [bv bi]. unfold dp_scan_body.
        no_out_of_fuel. }
    apply bind_not_out_of_fuel; [apply getitem2_not_out_of_fuel|intros mc].
    apply bind_not_out_of_fuel; [apply backtrack_fuel; lia|intros segs].
    apply bind_not_out_of_fuel; [|done].
    apply for_each_not_out_of_fuel. intros [L R] pos. unfold position_body.
    no_out_of_fuel. }
  unfold fast_response_k_server. by destruct (run n k w).
Qed.

(** * Further properties of the core *)

(** ** Calls outside the feasible range *)

Lemma getitem_out_of_range {A} (l : list A) i :
  Z.of_nat (length l) ≤ i → getitem l i = IndexError.
Proof.
  intros Hi. unfold getitem, index_of.
  destruct (Z.ltb_spec i 0); [lia|].
  destruct (Z.leb_spec 0 i); [|lia].
  destruct (Z.ltb_spec i (Z.of_nat (length l))); [lia|done].
Qed.

Lemma dp_stage_no_servers n k cost : 1 ≤ n → k ≤ 0 → dp_stage n k cost = IndexError.
Proof.
  intros Hn Hk. unfold dp_stage. destruct (decide (k = 0)) as [->|Hneg].
  - destruct (setitem2_spec (0 + 1) (n + 1) (new_table Inf n (0 + 1)) 0 0 (Fin 0))
      as (DP0 & -> & [HlD _] & _); [apply shape_new_table|lia|lia|]. simpl.
    rewrite range_cons by lia. simpl. unfold dp_first_row at 1.
    pose proof (getitem2_not_out_of_fuel cost 1 1) as Hfuel.
    destruct (getitem2 cost 1 1) as [c| |]; simpl; [|done..].
    unfold setitem2. rewrite getitem_out_of_range by lia. done.
  - unfold new_table. rewrite (range_nil 0 (k + 1)) by lia. done.
Qed.

Lemma run_no_servers n k w : 1 ≤ n → k ≤ 0 → run n k w = IndexError.
Proof.
  intros Hn Hk.
  pose proof (fast_response_k_server_not_out_of_fuel n k w) as Hfuel.
  unfold fast_response_k_server in Hfuel.
  destruct (run n k w) as [[out' w']| |] eqn:Hrun; [|done..].
  exfalso. unfold run in Hrun.
  apply bind_Ok in Hrun as (ps & _ & Hrun).
  apply bind_Ok in Hrun as ([cost best] & _ & Hrun).
  apply bind_Ok in Hrun as (ds & Hds & _).
  by rewrite dp_stage_no_servers in Hds.
Qed.

(** Without a server to place ([k ≤ 0]) a call on [n ≥ 1] clients raises
    [IndexError], whatever the weights: the DP table has no row 1 (or no
    row at all) to write. *)
Theorem no_servers_raises n k w :
  1 ≤ n → k ≤ 0 → fast_response_k_server n k w = IndexError.
Proof.
  intros Hn Hk. unfold fast_response_k_server. by rewrite run_no_servers.
Qed.

Lemma no_servers_raises_witness : fast_response_k_server 3 0 [0; 5; 2; 0] = IndexError.
Proof. apply (no_servers_raises 3 0 [0; 5; 2; 0]); lia. Defined.

(** A weight list with fewer than [n + 1] entries makes the call raise
    [IndexError] in the prefix-sum loop, whatever [k] is. *)
Theorem short_weights_raise n k w :
  1 ≤ n → Z.of_nat (length w) ≤ n → fast_response_k_server n k w = IndexError.
Proof.
  intros Hn Hlen.
  assert (prefix_stage n w = IndexError) as Hps.
  { unfold prefix_stage. remember (Z.max 1 (Z.of_nat (length w))) as m eqn:Hm.
    rewrite (range_split 1 m (n + 1)), for_each_app by lia.
    destruct (for_range_inv
                (λ (_ : Z) (s : prefix_state),
                   st_w s = w ∧ length (st_W s) = Z.to_nat (n + 1) ∧
                   length (st_XW s) = Z.to_nat (n + 1))
                prefix_body 1 m
                (PrefixState w (repeat_list 0 (n + 1)) (repeat_list 0 (n + 1))))
      as (s & -> & Hw & HlW & HlX); [lia| | |].
    - unfold repeat_list. simpl. by rewrite length_replicate.
    - intros i [w0 W XW] Hi (Hw0 & HlW & HlX). simpl in *. subst w0.
      destruct (lookup_lt_is_Some_2 W (Z.to_nat (i - 1))) as [a Ha]; [lia|].
      destruct (lookup_lt_is_Some_2 XW (Z.to_nat (i - 1))) as [b Hb]; [lia|].
      destruct (lookup_lt_is_Some_2 w (Z.to_nat i)) as [x Hx]; [lia|].
      unfold prefix_body; simpl.
      rewrite (getitem_lookup W (i - 1) a) by (done || lia). simpl.
      rewrite (getitem_lookup w i x) by (done || lia). simpl.
      rewrite setitem_insert by lia. simpl.
      rewrite (getitem_lookup XW (i - 1) b) by (done || lia). simpl.
      rewrite setitem_insert by lia. simpl.
      eexists. split; [done|]. simpl. by rewrite !length_insert.
    - simpl. rewrite range_cons by lia.
      assert (prefix_body m s = IndexError) as Hbody; [|simpl; by rewrite Hbody].
      unfold prefix_body.
      destruct (lookup_lt_is_Some_2 (st_W s) (Z.to_nat (m - 1))) as [a Ha]; [lia|].
      rewrite (getitem_lookup (st_W s) (m - 1) a) by (done || lia). simpl.
      rewrite Hw, getitem_out_of_range by lia. done. }
  unfold fast_response_k_server, run. by rewrite Hps.
Qed.

Lemma short_weights_raise_witness : fast_response_k_server 3 2 [0; 5; 2] = IndexError.
Proof. apply (short_weights_raise 3 2 [0; 5; 2]); simpl; lia. Defined.

(** ** What the call reads of its input *)

Lemma prefix_stage_spec_long n w :
  0 ≤ n → (Z.to_nat (n + 1) ≤ length w)%nat →
  ∃ s, prefix_stage n w = Ok s ∧ st_w s = w ∧
       arr_is (st_W s) n (Wsum w) ∧ arr_is (st_XW s) n (XWsum w).
Proof.
  intros Hn Hlen. unfold prefix_stage.
  destruct (for_range_inv
              (λ (i : Z) (s : prefix_state),
                 st_w s = w ∧ length (st_W s) = Z.to_nat (n + 1) ∧
                 length (st_XW s) = Z.to_nat (n + 1) ∧
                 ∀ p, 0 ≤ p < i → st_W s !! Z.to_nat p = Some (Wsum w p) ∧
                                    st_XW s !! Z.to_nat p = Some (XWsum w p))
              prefix_body 1 (n + 1)
              (PrefixState w (repeat_list 0 (n + 1)) (repeat_list 0 (n + 1))))
    as (s & Hs & Hw & HlW & HlX & Hcells); [lia| |..].
  - unfold repeat_list; simpl. rewrite length_replicate.
    repeat split; try done; assert (p = 0) as -> by lia;
      apply lookup_replicate_2; lia.
  - intros i [w0 W XW] Hi (Hw0 & HlW & HlX & Hcells). simpl in *. subst w0.
    destruct (Hcells (i - 1)) as [HW HXW]; [lia|].
    destruct (lookup_lt_is_Some_2 w (Z.to_nat i)) as [wi Hwi]; [lia|].
    assert (item w i = wi) as Hitem by (unfold item; by rewrite Hwi).
    unfold prefix_body; simpl.
    rewrite (getitem_lookup W (i - 1) _) by (done || lia). simpl.
    rewrite (getitem_lookup w i wi) by (done || lia). simpl.
    rewrite setitem_insert by lia. simpl.
    rewrite (getitem_lookup XW (i - 1) _) by (done || lia). simpl.
    rewrite setitem_insert by lia. simpl.
    eexists. split; [done|]. simpl.
    rewrite !length_insert. repeat split; try done.
    + destruct (decide (p = i)) as [->|Hne].
      * rewrite list_lookup_insert_eq by lia.
        rewrite (Wsum_step w i) by lia. by rewrite Hitem.
      * rewrite list_lookup_insert_ne by lia. apply Hcells. lia.
    + destruct (decide (p = i)) as [->|Hne].
      * rewrite list_lookup_insert_eq by lia.
        rewrite (XWsum_step w i) by lia. by rewrite Hitem.
      * rewrite list_lookup_insert_ne by lia. apply Hcells. lia.
  - exists s. repeat split; try done; intros p Hp; apply Hcells; lia.
Qed.

Lemma psum_ext f g (m : nat) :
  (∀ q, 1 ≤ q ≤ Z.of_nat m → f q = g q) → psum f m = psum g m.
Proof.
  induction m as [|m IH]; intros Hfg; simpl; [done|].
  rewrite IH by (intros q Hq; apply Hfg; lia). f_equal. apply Hfg. lia.
Qed.

Lemma arr_is_ext l n f g : arr_is l n f → (∀ p, 0 ≤ p ≤ n → f p = g p) → arr_is l n g.
Proof. intros [Hl H] Hfg. split; [done|]. intros p Hp. rewrite <- Hfg by done. auto. Qed.

(** The call reads nothing of [w] but the entries [w[1..n]]: two weight
    lists of at least [n + 1] entries that agree there give the same
    outcome, whatever [w[0]] and the entries past [n] hold. *)
Theorem only_the_n_weights_matter n k w w' :
  (Z.to_nat (n + 1) ≤ length w)%nat → (Z.to_nat (n + 1) ≤ length w')%nat →
  (∀ p, 1 ≤ p ≤ n → item w p = item w' p) →
  fast_response_k_server n k w = fast_response_k_server n k w'.
Proof.
  intros Hl Hl' Hagree.
  assert (∃ ps ps', prefix_stage n w = Ok ps ∧ prefix_stage n w' = Ok ps' ∧
                    st_W ps = st_W ps' ∧ st_XW ps = st_XW ps')
    as (ps & ps' & Hps & Hps' & HW & HXW).
  { destruct (Z.lt_ge_cases n 0) as [Hneg|Hn].
    - unfold prefix_stage. rewrite range_nil by lia. simpl.
      do 2 eexists. split; [done|]. split; [done|]. done.
    - destruct (prefix_stage_spec_long n w Hn Hl) as (ps & Hps & _ & HW & HXW).
      destruct (prefix_stage_spec_long n w' Hn Hl') as (ps' & Hps' & _ & HW' & HXW').
      exists ps, ps'. split; [done|]. split; [done|]. split.
      + apply (arr_is_unique _ _ n (Wsum w) Hn HW), (arr_is_ext _ _ _ _ HW').
        intros p Hp. symmetry. apply psum_ext. intros q Hq. apply Hagree. lia.
      + apply (arr_is_unique _ _ n (XWsum w) Hn HXW), (arr_is_ext _ _ _ _ HXW').
        intros p Hp. symmetry. apply psum_ext. intros q Hq. simpl.
        rewrite Hagree by lia. done. }
  unfold fast_response_k_server, run. rewrite Hps, Hps'. simpl. rewrite HW, HXW.
  destruct (cost_stage n (st_W ps') (st_XW ps')) as [[cost best]| |]; simpl; [|done..].
  destruct (dp_stage n k cost) as [[DP choice]| |]; simpl; [|done..].
  destruct (getitem2 DP k n); simpl; [|done..].
  destruct (backtrack (Z.to_nat k) choice k n []); simpl; [|done..].
  destruct (for_each _ (position_body best) []); simpl; done.
Qed.

Lemma only_the_n_weights_matter_witness :
  fast_response_k_server 3 2 [0; 5; 2; 7] = fast_response_k_server 3 2 [9; 5; 2; 7; 4; 4].
Proof.
  apply (only_the_n_weights_matter 3 2 [0; 5; 2; 7] [9; 5; 2; 7; 4; 4]);
    [simpl; lia|simpl; lia|].
  intros p Hp. assert (p = 1 ∨ p = 2 ∨ p = 3) as [->|[->| ->]] by lia; reflexivity.
Defined.

(** ** The returned cost is the least any placement can reach *)

Lemma chain_snoc_inv lo segs L R hi :
  chain lo (segs ++ [(L, R)]) hi → chain lo segs (L - 1) ∧ L ≤ R ∧ R = hi.
Proof.
  revert lo. induction segs as [|[L' R'] segs IH]; simpl; intros lo.
  - intros (-> & HLR & Hhi). lia.
  - intros (-> & HLR & Hrest). destruct (IH _ Hrest) as (Hch & HLR' & Hhi). auto.
Qed.

Lemma chain_length lo segs hi : chain lo segs hi → lo + Z.of_nat (length segs) ≤ hi + 1.
Proof.
  revert lo. induction segs as [|[L R] segs IH]; simpl; intros lo; [lia|].
  intros (-> & HLR & Hrest). apply IH in Hrest. lia.
Qed.

Lemma seg_sum_snoc cf segs L R : seg_sum cf (segs ++ [(L, R)]) = seg_sum cf segs + cf L R.
Proof. rewrite seg_sum_app. change (seg_sum cf [(L, R)]) with (cf L R + 0). lia. Qed.

(** No way of cutting [[1,j]] into segments costs less than the DP entry
    for that many servers. *)
Lemma dp_lower_bound n k cf s segs :
  dp_table_ok n k cf s →
  ∀ j, segs ≠ [] → Z.of_nat (length segs) ≤ k → chain 1 segs j → j ≤ n →
       dval (fst s) (Z.of_nat (length segs)) j ≤ seg_sum cf segs.
Proof.
  intros Hok. induction segs as [|[L R] init IH] using rev_ind; intros j Hne Hk Hch Hj; [done|].
  apply chain_snoc_inv in Hch as (Hinit & HLR & HR). subst j.
  assert (Z.of_nat (length (init ++ [(L, R)])) = Z.of_nat (length init) + 1) as Hlen1
    by (rewrite length_app; simpl; lia).
  rewrite Hlen1 in *. rewrite seg_sum_snoc.
  pose proof (chain_length _ _ _ Hinit) as Hlen.
  destruct (decide (init = [])) as [->|Hne'].
  - change (Z.of_nat (length (@nil (Z * Z))) + 1) with 1 in *. simpl in Hinit.
    assert (L = 1) as -> by lia.
    rewrite (dp_first_value n k cf s Hok R) by lia. unfold seg_sum. simpl. lia.
  - assert (1 ≤ Z.of_nat (length init)) by (destruct init; [done|simpl; lia]).
    specialize (IH (L - 1) Hne' ltac:(lia) Hinit ltac:(lia)).
    destruct (dp_later_value n k cf s Hok (Z.of_nat (length init) + 1) R)
      as (i0 & _ & Hleast); [lia..|].
    destruct (Hleast (L - 1)) as (Hle & _); [lia|].
    replace (Z.of_nat (length init) + 1 - 1) with (Z.of_nat (length init)) in Hle by lia.
    replace (L - 1 + 1) with L in Hle by lia. lia.
Qed.

Lemma plan_cost_lower_bound n w plan :
  nonneg_weights n w →
  (∀ L R, (L, R) ∈ fst <$> plan → 1 ≤ L ∧ L ≤ R ∧ R ≤ n) →
  seg_sum (brute_force_min w) (fst <$> plan) ≤ plan_cost w plan.
Proof.
  intros Hw. induction plan as [|[[L R] p] plan IH]; intros Hin; [done|].
  change (seg_sum (brute_force_min w) (fst <$> ((L, R, p) :: plan)))
    with (brute_force_min w L R + seg_sum (brute_force_min w) (fst <$> plan)).
  change (plan_cost w ((L, R, p) :: plan))
    with (weighted_distance w L R p + plan_cost w plan).
  destruct (Hin L R) as (HL & HLR & HR); [left|].
  pose proof (brute_force_min_le n w L R p Hw ltac:(lia) HR).
  assert (seg_sum (brute_force_min w) (fst <$> plan) ≤ plan_cost w plan).
  { apply IH. intros L' R' Hin'. apply Hin. by right. }
  lia.
Qed.

Lemma seg_sum_ext cf cg segs :
  (∀ L R, (L, R) ∈ segs → cf L R = cg L R) → seg_sum cf segs = seg_sum cg segs.
Proof.
  induction segs as [|[L R] segs IH]; intros Heq; [done|].
  change (seg_sum cf ((L, R) :: segs)) with (cf L R + seg_sum cf segs).
  change (seg_sum cg ((L, R) :: segs)) with (cg L R + seg_sum cg segs).
  rewrite (Heq L R) by left. rewrite IH; [done|]. intros L' R' Hin. apply Heq. by right.
Qed.

(** For non-negative weights the returned [min_total_cost] is optimal: cut
    [[1,n]] into [k] contiguous non-empty segments in any way and put the
    server of each segment at any position whatever, the total weighted
    distance is never below the returned cost. *)
Theorem min_total_cost_is_optimal n k w :
  1 ≤ k ≤ n → length w = Z.to_nat (n + 1) → nonneg_weights n w →
  ∃ total server_positions segments,
    fast_response_k_server n k w = Ok (Fin total, server_positions, segments) ∧
    ∀ plan, length plan = Z.to_nat k → chain 1 (fst <$> plan) n →
            total ≤ plan_cost w plan.
Proof.
  intros Hk Hlen Hw.
  destruct (run_spec n k w Hk Hlen)
    as (ps & cs & ds & segs & _ & (_ & _ & _ & Hcells) & (_ & Hok) & Hrun & _).
  do 3 eexists. split; [exact (fast_response_k_server_run _ _ _ _ _ Hrun)|].
  intros plan Hplen Hch.
  assert (∀ L R, (L, R) ∈ fst <$> plan → 1 ≤ L ∧ L ≤ R ∧ R ≤ n) as Hin.
  { intros L R. apply (chain_bounds 1 _ n). done. }
  pose proof (dp_lower_bound n k _ ds (fst <$> plan) Hok n) as Hlow.
  rewrite length_fmap, Hplen in Hlow. replace (Z.of_nat (Z.to_nat k)) with k in Hlow by lia.
  etrans; [apply Hlow; [|lia|done|lia]|].
  - intros Hnil. apply (f_equal length) in Hnil. rewrite length_fmap in Hnil.
    simpl in Hnil. lia.
  - rewrite (seg_sum_ext _ (brute_force_min w)); [by apply (plan_cost_lower_bound n)|].
    intros L R HLR. destruct (Hin L R HLR) as (HL & HLR' & HR). unfold cfun.
    by rewrite (cost_cell_brute_force n w cs L R Hw ltac:(lia) HR (Hcells L R ltac:(lia) HR)).
Qed.

Lemma min_total_cost_is_optimal_witness :
  ∃ total server_positions segments,
    fast_response_k_server 5 3 [0; 5; 2; 0; 9; 1]
      = Ok (Fin total, server_positions, segments) ∧
    ∀ plan, length plan = Z.to_nat 3 → chain 1 (fst <$> plan) 5 →
            total ≤ plan_cost [0; 5; 2; 0; 9; 1] plan.
Proof.
  apply (min_total_cost_is_optimal 5 3 [0; 5; 2; 0; 9; 1]);
    [lia|reflexivity|unfold nonneg_weights; simpl; repeat (constructor; [lia|]); constructor].
Defined.

(** ** The returned placement costs what the call reports *)

Lemma scan_result_unique A i j m1 m2 :
  scan_result A i j m1 → scan_result A i j m2 → m1 = m2.
Proof.
  intros [(Hr1 & Ht1 & Hb1)|[-> Hn1]] [(Hr2 & Ht2 & Hb2)|[-> Hn2]]; [| | |done].
  - destruct (Z.lt_trichotomy m1 m2) as [Hlt|[Heq|Hgt]]; [|done|].
    + specialize (Hb2 m1 ltac:(lia)). lia.
    + specialize (Hb1 m2 ltac:(lia)). lia.
  - specialize (Hn2 m1 Hr1). lia.
  - specialize (Hn1 m2 Hr2). lia.
Qed.

Lemma cost_cell_served n w cs i j :
  1 ≤ i ≤ j → j ≤ n → cost_cell_ok (Wsum w) (XWsum w) cs i j →
  ∃ m, cell (snd cs) i j = Some m ∧ i ≤ m ≤ j ∧
       find_weighted_median i j (prefix_sum_array n w) = Ok m ∧
       cfun (fst cs) i j = weighted_distance w i j m.
Proof.
  intros Hi Hj (m & Hscan & Hb & Hc).
  pose proof (scan_result_range _ i j m ltac:(lia) Hscan) as Hm.
  exists m. split; [done|]. split; [done|]. split.
  - destruct (find_weighted_median_scan (prefix_sum_array n w) n (Wsum w) i j)
      as (m' & Hm' & Hscan'); [apply prefix_sum_array_is; lia|done..|].
    by rewrite (scan_result_unique _ _ _ _ _ Hscan Hscan').
  - unfold cfun. rewrite Hc. simpl.
    by rewrite cost_formula_closed, weighted_distance_closed by lia.
Qed.

Lemma served_cost_spec n w cs segs :
  (∀ i j, 1 ≤ i ≤ j → j ≤ n → cost_cell_ok (Wsum w) (XWsum w) cs i j) →
  (∀ L R, (L, R) ∈ segs → 1 ≤ L ∧ L ≤ R ∧ R ≤ n) →
  served_cost w segs ((λ seg, cell (snd cs) seg.1 seg.2) <$> segs)
  = Some (seg_sum (cfun (fst cs)) segs).
Proof.
  intros Hcells. induction segs as [|[L R] segs IH]; intros Hin; [done|].
  destruct (Hin L R) as (HL & HLR & HR); [left|].
  destruct (cost_cell_served n w cs L R ltac:(lia) HR (Hcells L R ltac:(lia) HR))
    as (m & Hb & _ & _ & Hc).
  change (seg_sum (cfun cs.1) ((L, R) :: segs))
    with (cfun cs.1 L R + seg_sum (cfun cs.1) segs).
  rewrite fmap_cons. cbn [served_cost fst snd].
  rewrite Hb, IH by (intros; apply Hin; by right). by rewrite Hc.
Qed.

(** For [1 ≤ k ≤ n] and any integer weights the reported [min_total_cost]
    is the true cost of the returned placement: every position is present,
    and the weighted distances of the clients of each segment to its
    position add up to the reported value. *)
Theorem reported_cost_is_cost_of_placement n k w :
  1 ≤ k ≤ n → length w = Z.to_nat (n + 1) →
  ∃ total server_positions segments,
    fast_response_k_server n k w = Ok (Fin total, server_positions, segments) ∧
    served_cost w segments server_positions = Some total.
Proof.
  intros Hk Hlen.
  destruct (run_spec n k w Hk Hlen)
    as (ps & cs & ds & segs & _ & (_ & _ & _ & Hcells) & _ & Hrun & _ & Hch & Hsum).
  do 3 eexists. split; [exact (fast_response_k_server_run _ _ _ _ _ Hrun)|].
  rewrite (served_cost_spec n w cs segs Hcells), Hsum; [done|].
  intros L R. apply (chain_bounds 1 _ n). done.
Qed.

Lemma reported_cost_is_cost_of_placement_witness :
  ∃ total server_positions segments,
    fast_response_k_server 5 3 [0; 5; 2; 0; 9; 1]
      = Ok (Fin total, server_positions, segments) ∧
    served_cost [0; 5; 2; 0; 9; 1] segments server_positions = Some total.
Proof.
  apply (reported_cost_is_cost_of_placement 5 3 [0; 5; 2; 0; 9; 1]); [lia|reflexivity].
Defined.

(** ** Where the servers stand *)



(** The docstring of [find_weighted_median]: on prefix sums of non-negative
    weights the weight strictly left of the returned position is at most
    half the weight of the interval, and so is the weight strictly right of
    it. *)
Theorem weighted_median_balances n w i j :
  nonneg_weights n w → 1 ≤ i ≤ j → j ≤ n →
  let W := prefix_sum_array n w in
  ∃ m, find_weighted_median i j W = Ok m ∧
       2 * (item W (m - 1) - item W (i - 1)) ≤ item W j - item W (i - 1) ∧
       2 * (item W j - item W m) ≤ item W j - item W (i - 1).
Proof.
  intros Hw Hi Hj W.
  pose proof (prefix_sum_array_is n w ltac:(lia)) as HW. fold W in HW.
  destruct (find_weighted_median_scan W n (Wsum w) i j HW Hi Hj) as (m & Hm & Hscan).
  destruct (scan_result_median n w i j m Hw Hi Hj Hscan) as (Hr & Htg & Hbelow).
  exists m. split; [done|].
  rewrite !(item_arr W n (Wsum w)) by (done || lia).
  unfold median_target in *. set (T := Wsum w j - Wsum w (i - 1)) in *.
  pose proof (proj1 (ceil_half_spec T (ceil_half T)) ltac:(lia)) as Hup.
  assert (2 * ceil_half T ≤ T + 1) as Hlow.
  { unfold ceil_half. pose proof (Z.div_mod (T + 1) 2 ltac:(lia)).
    pose proof (Z.mod_pos_bound (T + 1) 2 ltac:(lia)). lia. }
  pose proof (Wsum_mono n w (i - 1) j Hw ltac:(lia) Hj) as Hmono.
  split; [|subst T; lia].
  destruct (decide (m = i)) as [->|Hne]; [subst T; lia|].
  specialize (Hbelow (m - 1) ltac:(lia)). subst T. lia.
Qed.

Lemma weighted_median_balances_witness :
  let W := prefix_sum_array 4 [0; 3; 1; 4; 1] in
  ∃ m, find_weighted_median 1 4 W = Ok m ∧
       2 * (item W (m - 1) - item W (1 - 1)) ≤ item W 4 - item W (1 - 1) ∧
       2 * (item W 4 - item W m) ≤ item W 4 - item W (1 - 1).
Proof.
  apply (weighted_median_balances 4 [0; 3; 1; 4; 1] 1 4);
    [unfold nonneg_weights; simpl; repeat (constructor; [lia|]); constructor|lia|lia].
Defined.

(** ** The diagonal of the interval tables *)

Lemma cost_cell_single A B cs i :
  cost_cell_ok A B cs i i → cell (fst cs) i i = Some 0 ∧ cell (snd cs) i i = Some i.
Proof.
  intros (m & Hscan & Hb & Hc).
  assert (m = i) as -> by (pose proof (scan_result_range A i i m ltac:(lia) Hscan); lia).
  split; [|done]. rewrite Hc. unfold cost_formula.
  destruct (Z.leb_spec i (i - 1)); [lia|]. destruct (Z.leb_spec (i + 1) i); [lia|]. done.
Qed.

(** Whatever the weights, negative ones included, the interval stage leaves
    [cost[i][i] = 0] and [best_server[i][i] = i] on the whole diagonal. *)
Theorem single_client_interval n w i :
  length w = Z.to_nat (n + 1) → 1 ≤ i ≤ n →
  ∃ ps cost best_server,
    prefix_stage n w = Ok ps ∧
    cost_stage n (st_W ps) (st_XW ps) = Ok (cost, best_server) ∧
    getitem2 cost i i = Ok 0 ∧ getitem2 best_server i i = Ok i.
Proof.
  intros Hlen Hi.
  destruct (prefix_stage_spec n w) as (ps & Hps & _ & HW & HXW); [lia|done|].
  destruct (cost_stage_spec n _ _ _ _ ltac:(lia) HW HXW) as ([cost best] & Hcs & _ & _ & Hcells).
  destruct (cost_cell_single _ _ _ i (Hcells i i ltac:(lia) ltac:(lia))) as [Hc Hb].
  exists ps, cost, best. split; [done|]. split; [done|].
  split; apply getitem2_cell; (done || lia).
Qed.

Lemma single_client_interval_witness :
  ∃ ps cost best_server,
    prefix_stage 3 [0; -5; 2; 7] = Ok ps ∧
    cost_stage 3 (st_W ps) (st_XW ps) = Ok (cost, best_server) ∧
    getitem2 cost 2 2 = Ok 0 ∧ getitem2 best_server 2 2 = Ok 2.
Proof. apply (single_client_interval 3 [0; -5; 2; 7] 2); [reflexivity|lia]. Defined.

(** ** As many servers as clients, and a single server *)

Lemma chain_singletons lo segs hi :
  chain lo segs hi → Z.of_nat (length segs) = hi - lo + 1 →
  segs = (λ i, (i, i)) <$> range lo (hi + 1).
Proof.
  revert lo. induction segs as [|[L R] segs IH]; simpl; intros lo.
  - intros -> _. by rewrite range_nil by lia.
  - intros (-> & HLR & Hrest) Hlen.
    pose proof (chain_length _ _ _ Hrest) as Hle.
    assert (R = lo) as -> by lia.
    rewrite range_cons by lia. simpl. f_equal. apply IH; [done|lia].
Qed.

Lemma seg_sum_zero cf segs : (∀ L R, (L, R) ∈ segs → cf L R = 0) → seg_sum cf segs = 0.
Proof.
  induction segs as [|[L R] segs IH]; intros Hz; [done|].
  change (seg_sum cf ((L, R) :: segs)) with (cf L R + seg_sum cf segs).
  rewrite (Hz L R) by left. rewrite IH; [done|]. intros L' R' Hin. apply Hz. by right.
Qed.

(** With as many servers as clients ([k = n]) and any integer weights the
    call returns cost 0, the [n] one-client segments [(i, i)], and every
    server on its own client. *)
Theorem one_server_per_client n w :
  1 ≤ n → length w = Z.to_nat (n + 1) →
  fast_response_k_server n n w
  = Ok (Fin 0, Some <$> range 1 (n + 1), (λ i, (i, i)) <$> range 1 (n + 1)).
Proof.
  intros Hn Hlen.
  destruct (run_spec n n w ltac:(lia) Hlen)
    as (ps & cs & ds & segs & _ & (_ & _ & _ & Hcells) & _ & Hrun & Hsl & Hch & Hsum).
  rewrite (fast_response_k_server_run _ _ _ _ _ Hrun).
  pose proof (chain_singletons 1 segs n Hch ltac:(lia)) as Hsegs.
  assert (∀ L R, (L, R) ∈ segs → L = R ∧ 1 ≤ L ≤ n) as Hsingle.
  { intros L R. rewrite Hsegs. intros (i & [= -> ->] & Hi%elem_of_range)%list_elem_of_fmap. lia. }
  rewrite <- Hsum. rewrite seg_sum_zero.
  - do 3 f_equal; [|exact Hsegs]. rewrite Hsegs at 1. rewrite <- list_fmap_compose.
    apply list_fmap_ext. intros _ i Hi%list_elem_of_lookup_2%elem_of_range. simpl.
    by destruct (cost_cell_single _ _ _ i (Hcells i i ltac:(lia) ltac:(lia))) as [_ ->].
  - intros L R HLR. destruct (Hsingle L R HLR) as [-> HL]. unfold cfun.
    by destruct (cost_cell_single _ _ _ R (Hcells R R ltac:(lia) ltac:(lia))) as [-> _].
Qed.

Lemma one_server_per_client_witness :
  fast_response_k_server 3 3 [0; -5; 2; 7]
  = Ok (Fin 0, Some <$> range 1 (3 + 1), (λ i, (i, i)) <$> range 1 (3 + 1)).
Proof. apply (one_server_per_client 3 [0; -5; 2; 7]); [lia|reflexivity]. Defined.

(** With one server and non-negative weights the call returns the single
    segment [(1, n)], the weighted median of the whole line as the server
    position, and as cost the brute-force minimum over all positions. *)
Theorem single_server_serves_the_line n w :
  1 ≤ n → length w = Z.to_nat (n + 1) → nonneg_weights n w →
  ∃ m, find_weighted_median 1 n (prefix_sum_array n w) = Ok m ∧
       fast_response_k_server n 1 w
       = Ok (Fin (brute_force_min w 1 n), [Some m], [(1, n)]).
Proof.
  intros Hn Hlen Hw.
  destruct (run_spec n 1 w ltac:(lia) Hlen)
    as (ps & cs & ds & segs & _ & (_ & _ & _ & Hcells) & (_ & Hok) & Hrun & Hsl & Hch & Hsum).
  assert (segs = [(1, n)]) as ->.
  { destruct segs as [|[L R] [|seg segs]]; simpl in Hsl; [lia| |lia].
    simpl in Hch. f_equal. f_equal; lia. }
  destruct (cost_cell_served n w cs 1 n ltac:(lia) ltac:(lia) (Hcells 1 n ltac:(lia) ltac:(lia)))
    as (m & Hb & _ & Hmed & _).
  exists m. split; [done|].
  rewrite (fast_response_k_server_run _ _ _ _ _ Hrun). rewrite <- Hsum.
  change (seg_sum (cfun cs.1) [(1, n)]) with (cfun cs.1 1 n + 0).
  unfold cfun at 1.
  rewrite (cost_cell_brute_force n w cs 1 n Hw ltac:(lia) ltac:(lia)
             (Hcells 1 n ltac:(lia) ltac:(lia))).
  simpl. rewrite Hb, Z.add_0_r. done.
Qed.

Lemma single_server_serves_the_line_witness :
  ∃ m, find_weighted_median 1 4 (prefix_sum_array 4 [0; 3; 1; 4; 1]) = Ok m ∧
       fast_response_k_server 4 1 [0; 3; 1; 4; 1]
       = Ok (Fin (brute_force_min [0; 3; 1; 4; 1] 1 4), [Some m], [(1, 4)]).
Proof.
  apply (single_server_serves_the_line 4 [0; 3; 1; 4; 1]);
    [lia|reflexivity|unfold nonneg_weights; simpl; repeat (constructor; [lia|]); constructor].
Defined.

(** ** Which cells of the DP tables are filled *)

(** In the rows [1..k] the DP stage fills exactly the cells with [t ≤ j]:
    there [DP[t][j]] is an integer and [choice[t][j]] a split point in
    [[t-1, j-1]]; the cells with [j < t] keep [inf] and [-1]. *)
Theorem dp_filled_from_the_diagonal n k w t j :
  length w = Z.to_nat (n + 1) → 1 ≤ n → 1 ≤ t ≤ k → 0 ≤ j ≤ n →
  ∃ ps cost best_server DP choice,
    prefix_stage n w = Ok ps ∧
    cost_stage n (st_W ps) (st_XW ps) = Ok (cost, best_server) ∧
    dp_stage n k cost = Ok (DP, choice) ∧
    (j < t → getitem2 DP t j = Ok Inf ∧ getitem2 choice t j = Ok (-1)) ∧
    (t ≤ j → ∃ v c, getitem2 DP t j = Ok (Fin v) ∧ getitem2 choice t j = Ok c ∧
                    t - 1 ≤ c ≤ j - 1).
Proof.
  intros Hlen Hn Ht Hj.
  destruct (prefix_stage_spec n w) as (ps & Hps & _ & HW & HXW); [lia|done|].
  destruct (cost_stage_spec n _ _ _ _ ltac:(lia) HW HXW) as ([cost best] & Hcs & Hsc & _ & _).
  simpl in Hsc.
  destruct (dp_stage_spec n k _ cost ltac:(lia) ltac:(lia) (cost_is_cfun n cost Hsc))
    as ([DP choice] & Hds & _ & _ & [Hfirst Hcells] & Hunset).
  exists ps, cost, best, DP, choice.
  split; [done|]. split; [done|]. split; [done|]. split.
  - intros Hlt. destruct (Hunset t j) as [HD HC]; [lia..|].
    split; apply getitem2_cell; (done || lia).
  - intros Hge. destruct (decide (t = 1)) as [->|Hne].
    + destruct (Hfirst j) as [HD HC]; [lia|]. exists (cfun cost 1 j), 0.
      split; [apply getitem2_cell; (done || lia)|].
      split; [apply getitem2_cell; (done || lia)|lia].
    + destruct (Hcells t j) as (v & i0 & HD & HC & _ & Hr & _); [lia..|].
      exists v, i0. split; [apply getitem2_cell; (done || lia)|].
      split; [apply getitem2_cell; (done || lia)|lia].
Qed.

Lemma dp_filled_from_the_diagonal_witness :
  ∃ ps cost best_server DP choice,
    prefix_stage 4 [0; 3; 1; 4; 1] = Ok ps ∧
    cost_stage 4 (st_W ps) (st_XW ps) = Ok (cost, best_server) ∧
    dp_stage 4 3 cost = Ok (DP, choice) ∧
    (2 < 3 → getitem2 DP 3 2 = Ok Inf ∧ getitem2 choice 3 2 = Ok (-1)) ∧
    (3 ≤ 2 → ∃ v c, getitem2 DP 3 2 = Ok (Fin v) ∧ getitem2 choice 3 2 = Ok c ∧
                    3 - 1 ≤ c ≤ 2 - 1).
Proof.
  apply (dp_filled_from_the_diagonal 4 3 [0; 3; 1; 4; 1] 3 2); [reflexivity|lia|lia|lia].
Defined.

(** With more servers than clients ([k > n ≥ 1]) the call returns [inf]
    as its cost and a position list in which some entry is [None]. *)
Theorem too_many_servers_leave_a_position_absent n k w :
  1 ≤ n → n < k → length w = Z.to_nat (n + 1) →
  ∃ server_positions segments,
    fast_response_k_server n k w = Ok (Inf, server_positions, segments) ∧
    None ∈ server_positions.
Proof. apply more_servers_than_clients. Qed.

Lemma too_many_servers_leave_a_position_absent_witness :
  ∃ server_positions segments,
    fast_response_k_server 3 5 [0; 5; 2; 0] = Ok (Inf, server_positions, segments) ∧
    None ∈ server_positions.
Proof.
  apply (too_many_servers_leave_a_position_absent 3 5 [0; 5; 2; 0]); [lia|lia|reflexivity].
Defined.

(** ** The median scan on any array *)

(** On any integer array that has the positions up to [j], prefix sums or
    not, [find_weighted_median] returns a position of [[i,j]]: the first
    one to reach the target, or [i] itself when none does. *)
Theorem find_weighted_median_any_array i j (W : list Z) :
  1 ≤ i ≤ j → j < Z.of_nat (length W) →
  let target := item W (i - 1) + (item W j - item W (i - 1) + 1) `div` 2 in
  ∃ m, find_weighted_median i j W = Ok m ∧ i ≤ m ≤ j ∧
       ((target ≤ item W m ∧ ∀ p, i ≤ p < m → item W p < target)
        ∨ (m = i ∧ ∀ p, i ≤ p ≤ j → item W p < target)).
Proof.
  intros Hi Hj target.
  assert (arr_is W (Z.of_nat (length W) - 1) (item W)) as HW.
  { split; [lia|]. intros p Hp. unfold item.
    destruct (lookup_lt_is_Some_2 W (Z.to_nat p)) as [x ->]; [lia|done]. }
  destruct (find_weighted_median_scan W _ (item W) i j HW Hi ltac:(lia)) as (m & Hm & Hscan).
  exists m. split; [done|]. split; [apply (scan_result_range (item W) i j m); [lia|done]|].
  unfold scan_result, median_target, ceil_half in Hscan. subst target.
  destruct Hscan as [(_ & Ht & Hb)|[-> Hb]]; [left|right]; done.
Qed.

Lemma find_weighted_median_any_array_witness :
  let target := item [0; 5; 3; 4] (2 - 1) + (item [0; 5; 3; 4] 3 - item [0; 5; 3; 4] (2 - 1) + 1) `div` 2 in
  ∃ m, find_weighted_median 2 3 [0; 5; 3; 4] = Ok m ∧ 2 ≤ m ≤ 3 ∧
       ((target ≤ item [0; 5; 3; 4] m ∧ ∀ p, 2 ≤ p < m → item [0; 5; 3; 4] p < target)
        ∨ (m = 2 ∧ ∀ p, 2 ≤ p ≤ 3 → item [0; 5; 3; 4] p < target)).
Proof. apply (find_weighted_median_any_array 2 3 [0; 5; 3; 4]); simpl; lia. Defined.

(** * The benchmark driver *)

Lemma for_range_inv_o {S} (I : Z → S → Prop) (body : Z → S → outcome S) a b s :
  a ≤ b →
  I a s →
  (∀ i s, a ≤ i < b → I i s → ∃ s', body i s = Returns s' ∧ I (i + 1) s') →
  ∃ s', for_each_o (range a b) body s = Returns s' ∧ I b s'.
Proof.
  intros Hab. remember (Z.to_nat (b - a)) as len eqn:Hlen.
  revert a s Hab Hlen. induction len as [|len IH]; intros a s Hab Hlen Ha Hstep.
  - assert (a = b) as -> by lia. rewrite range_nil by lia. eauto.
  - rewrite range_cons by lia. simpl.
    destruct (Hstep a s) as (s1 & -> & Hs1); [lia|done|]. simpl.
    apply IH; [lia|lia|done|]. intros i s2 Hi. apply Hstep. lia.
Qed.

Lemma run_frame n k w out w' : run n k w = Ok (out, w') → w' = w.
Proof.
  unfold run. intros Hrun.
  apply bind_Ok in Hrun as (s & Hs & Hrun).
  apply bind_Ok in Hrun as ([cost best] & _ & Hrun).
  apply bind_Ok in Hrun as ([DP choice] & _ & Hrun).
  apply bind_Ok in Hrun as (mc & _ & Hrun).
  apply bind_Ok in Hrun as (segs & _ & Hrun).
  apply bind_Ok in Hrun as (pos & _ & Hrun).
  injection Hrun as _ <-. by apply (prefix_loop_frame _ _ _ Hs).
Qed.

(** With at least one client and one server a call on [n + 1] weights
    returns, feasible or not, and hands the list back as it was. *)
Lemma run_returns n k w :
  1 ≤ n → 1 ≤ k → length w = Z.to_nat (n + 1) → ∃ out, run n k w = Ok (out, w).
Proof.
  intros Hn Hk Hlen. destruct (Z.le_gt_cases k n) as [Hle|Hgt].
  - destruct (run_spec n k w ltac:(lia) Hlen) as (ps & cs & ds & segs & _ & _ & _ & Hrun & _).
    eauto.
  - destruct (more_servers_than_clients n k w Hn ltac:(lia) Hlen) as (pos & segs & Hcall & _).
    unfold fast_response_k_server in Hcall.
    destruct (run n k w) as [[out w']| |] eqn:Hrun; [|done..].
    rewrite (run_frame _ _ _ _ _ Hrun). eauto.
Qed.

Lemma nonneg_weights_item n w :
  (∀ p, 1 ≤ p ≤ n → 0 ≤ item w p) → nonneg_weights n w.
Proof.
  intros Hitem. unfold nonneg_weights. apply Forall_lookup. intros q x Hq.
  apply lookup_take_Some in Hq as [Hq Hlt]. rewrite lookup_drop in Hq.
  specialize (Hitem (Z.of_nat (1 + q)) ltac:(lia)). unfold item in Hitem.
  rewrite Nat2Z.id, Hq in Hitem. done.
Qed.

Lemma length_filter_Forall (P : Z → Prop) `{∀ x, Decision (P x)} (l : list Z) :
  Forall P l → length (filter P l) = length l.
Proof.
  induction 1 as [|x l Hx _ IH]; [done|].
  rewrite filter_cons_True by done. simpl. by rewrite IH.
Qed.

Lemma sorted_middle_counts (l1 : list Z) (v : Z) (l2 : list Z) :
  StronglySorted Z.le (l1 ++ v :: l2) →
  (S (length l1) ≤ length (filter (λ x : Z, (x ≤ v)%Z) (l1 ++ v :: l2)))%nat ∧
  (S (length l2) ≤ length (filter (λ x : Z, (v ≤ x)%Z) (l1 ++ v :: l2)))%nat.
Proof.
  intros Hsorted.
  apply StronglySorted_app in Hsorted as (Hcross & _ & Hright).
  apply StronglySorted_inv in Hright as [_ Hafter].
  assert (Forall (λ x, x ≤ v) l1) as Hbefore.
  { apply Forall_forall. intros x Hx. apply (Hcross x v Hx). left. }
  rewrite !filter_app, !length_app.
  rewrite (filter_cons_True (λ x, x ≤ v)) by (simpl; lia).
  rewrite (filter_cons_True (λ x, v ≤ x)) by (simpl; lia).
  simpl. rewrite (length_filter_Forall (λ x, x ≤ v)) by done.
  rewrite (length_filter_Forall (λ x, v ≤ x) l2) by done.
  lia.
Qed.

(** In an ascending list the entry at position [i] has at least [i + 1]
    entries at most it and at least [length l - i] entries at least it. *)
Lemma sorted_position_counts (l : list Z) (i : nat) (v : Z) :
  StronglySorted Z.le l → l !! i = Some v →
  (S i ≤ length (filter (λ x : Z, (x ≤ v)%Z) l))%nat ∧
  (length l - i ≤ length (filter (λ x : Z, (v ≤ x)%Z) l))%nat.
Proof.
  intros Hsorted Hi.
  pose proof (lookup_lt_Some _ _ _ Hi) as Hlt.
  pose proof (take_drop_middle l i v Hi) as Hmid.
  pose proof (sorted_middle_counts (take i l) v (drop (S i) l)) as Hcounts.
  rewrite Hmid, length_take, length_drop in Hcounts.
  destruct (Hcounts Hsorted). lia.
Qed.

Section Driver.
Context `{World world}.

Lemma make_weights_spec n max_w (g : world) :
  1 ≤ max_w →
  ∃ w g', make_weights n max_w g = Returns (w, g') ∧
          length w = Z.to_nat (n + 1) ∧
          (0 ≤ n → item w 0 = 0) ∧
          (draws_in_range → ∀ p, 1 ≤ p ≤ n → 1 ≤ item w p ≤ max_w).
Proof.
  intros Hmax. unfold make_weights.
  destruct (Z.lt_ge_cases n 1) as [Hsmall|Hn].
  { rewrite range_nil by lia. simpl. do 2 eexists. split; [done|].
    unfold repeat_list. rewrite length_replicate. split; [done|]. split; [|intros; lia].
    intros Hn. unfold item. rewrite lookup_replicate_2 by lia. done. }
  destruct (for_range_inv_o
              (λ (i : Z) (s : list Z * world),
                 length s.1 = Z.to_nat (n + 1) ∧ item s.1 0 = 0 ∧
                 (draws_in_range → ∀ p, 1 ≤ p < i → 1 ≤ item s.1 p ≤ max_w))
              (make_weights_body max_w) 1 (n + 1) (repeat_list 0 (n + 1), g))
    as ([w g'] & Hloop & Hlen & H0 & Hitems); [lia| | |].
  - unfold repeat_list. simpl. rewrite length_replicate. split; [done|]. split.
    + unfold item. rewrite lookup_replicate_2 by lia. done.
    + intros; lia.
  - intros i [w g1] Hi (Hlen & H0 & Hitems). simpl in *.
    unfold make_weights_body, randint. destruct (Z.leb_spec 1 max_w); [|lia]. simpl.
    destruct (draw 1 max_w g1) as [x g2] eqn:Hdraw. simpl.
    rewrite setitem_insert by lia. simpl.
    eexists. split; [done|]. simpl. rewrite length_insert. split; [done|]. split.
    + unfold item in *. rewrite list_lookup_insert_ne by lia. done.
    + intros Hfair p Hp. unfold item. destruct (decide (p = i)) as [->|Hne].
      * rewrite list_lookup_insert_eq by lia. simpl.
        specialize (Hfair 1 max_w g1 ltac:(lia)). by rewrite Hdraw in Hfair.
      * rewrite list_lookup_insert_ne by lia. apply (Hitems Hfair). lia.
  - exists w, g'. simpl in *. split; [done|]. split; [done|]. split; [done|].
    intros Hfair p Hp. apply (Hitems Hfair). lia.
Qed.

Lemma timing_loop_spec n k reps w (g : world) :
  1 ≤ n → 1 ≤ k → 0 ≤ reps → length w = Z.to_nat (n + 1) →
  ∃ times g', timing_loop n k reps w g = Returns (w, times, g') ∧
              length times = Z.to_nat reps.
Proof.
  intros Hn Hk Hreps Hlen. unfold timing_loop.
  destruct (for_range_inv_o
              (λ (i : Z) (s : list Z * list Z * world),
                 s.1.1 = w ∧ length s.1.2 = Z.to_nat i)
              (λ _, timing_body n k) 0 reps (w, [], g))
    as ([[w' times] g'] & Hloop & Hw & Htimes); [lia|done| |].
  - intros i [[w' times] g1] Hi [Hw Htimes]. simpl in *. subst w'.
    unfold timing_body. destruct (perf_counter_ns g1) as [t1 g2].
    destruct (run_returns n k w Hn Hk Hlen) as (out & ->). simpl.
    destruct (perf_counter_ns g2) as [t2 g3].
    eexists. split; [done|]. simpl. split; [done|]. rewrite length_app. simpl. lia.
  - simpl in *. subst w'. eauto.
Qed.

(** [make_weights]: for [max_w ≥ 1] it returns, whatever [random] answers,
    a list of [n + 1] entries with [w[0] = 0]; when [random.randint] keeps
    to its range the entries [w[1..n]] lie in [[1, max_w]], so the list is
    a weight list the core accepts as non-negative. *)
Theorem generated_weights_are_valid n max_w (g : world) :
  draws_in_range → 0 ≤ n → 1 ≤ max_w →
  ∃ w g', make_weights n max_w g = Returns (w, g') ∧
          length w = Z.to_nat (n + 1) ∧ item w 0 = 0 ∧
          (∀ p, 1 ≤ p ≤ n → 1 ≤ item w p ≤ max_w) ∧
          nonneg_weights n w.
Proof.
  intros Hfair Hn Hmax.
  destruct (make_weights_spec n max_w g Hmax) as (w & g' & Hmk & Hlen & H0 & Hitems).
  exists w, g'. split; [done|]. split; [done|]. split; [auto|]. split; [auto|].
  apply nonneg_weights_item. intros p Hp. specialize (Hitems Hfair p Hp). lia.
Qed.

(** [make_weights] with [max_w < 1] and at least one client raises the
    [ValueError] of [random.randint(1, max_w)]. *)
Theorem make_weights_empty_range n max_w (g : world) :
  1 ≤ n → max_w < 1 → make_weights n max_w g = Raises value_error.
Proof.
  intros Hn Hmax. unfold make_weights. rewrite range_cons by lia. simpl.
  unfold randint. destruct (Z.leb_spec 1 max_w); [lia|done].
Qed.

(** [get_time_k_server] with [reps ≤ 0] measures nothing and raises
    [IndexError] when it takes the median of the empty list. *)
Theorem no_repetitions_raise n k reps (g : world) :
  reps ≤ 0 → get_time_k_server n k reps g = Raises index_error.
Proof.
  intros Hreps. unfold get_time_k_server.
  destruct (make_weights_spec n 10 g ltac:(lia)) as (w & g' & -> & _). simpl.
  unfold timing_loop. rewrite range_nil by lia. done.
Qed.

(** [get_time_k_server] on [n ≥ 1] clients with [k ≤ 0] servers and at
    least one repetition raises the [IndexError] of the core. *)
Theorem timing_without_servers_raises n k reps (g : world) :
  1 ≤ n → k ≤ 0 → 1 ≤ reps → get_time_k_server n k reps g = Raises index_error.
Proof.
  intros Hn Hk Hreps. unfold get_time_k_server.
  destruct (make_weights_spec n 10 g ltac:(lia)) as (w & g' & -> & _). simpl.
  unfold timing_loop. rewrite range_cons by lia. simpl.
  unfold timing_body at 1. destruct (perf_counter_ns g') as [t1 g1].
  by rewrite run_no_servers.
Qed.

(** [get_time_k_server] with [n, k, reps ≥ 1] returns, feasible call or
    not; every round runs on the same generated weights; and what it
    returns is a median of the [reps] measured durations: one of them, with
    more than half of them at most it and at least half of them at least
    it. *)
Theorem get_time_returns_median n k reps (g : world) :
  1 ≤ n → 1 ≤ k → 1 ≤ reps →
  ∃ w g1 times g2 t,
    make_weights n 10 g = Returns (w, g1) ∧
    timing_loop n k reps w g1 = Returns (w, times, g2) ∧
    get_time_k_server n k reps g = Returns (t, g2) ∧
    Z.of_nat (length times) = reps ∧ t ∈ times ∧
    reps `div` 2 + 1 ≤ Z.of_nat (length (filter (λ x, x ≤ t) times)) ∧
    reps - reps `div` 2 ≤ Z.of_nat (length (filter (λ x, t ≤ x) times)).
Proof.
  intros Hn Hk Hreps.
  destruct (make_weights_spec n 10 g ltac:(lia)) as (w & g1 & Hmk & Hlen & _).
  destruct (timing_loop_spec n k reps w g1 Hn Hk ltac:(lia) Hlen) as (times & g2 & Hloop & Htl).
  pose proof (merge_sort_Permutation Z.le times) as Hperm.
  pose proof (StronglySorted_merge_sort Z.le times) as Hsorted.
  pose proof (Permutation_length Hperm) as Hsl.
  pose proof (Z.div_pos reps 2 ltac:(lia) ltac:(lia)) as Hhalf0.
  pose proof (Z.div_lt reps 2 ltac:(lia) ltac:(lia)) as Hhalf.
  destruct (lookup_lt_is_Some_2 (merge_sort Z.le times) (Z.to_nat (reps `div` 2)))
    as [t Ht]; [lia|].
  exists w, g1, times, g2, t. split; [done|]. split; [done|]. split.
  { unfold get_time_k_server. rewrite Hmk. simpl. rewrite Hloop. simpl.
    replace (Z.of_nat (length (merge_sort Z.le times))) with reps by lia.
    rewrite (getitem_lookup _ (reps `div` 2) t) by (done || lia). done. }
  split; [lia|]. split.
  { rewrite <- Hperm. by apply list_elem_of_lookup_2 in Ht. }
  destruct (sorted_position_counts _ _ _ Hsorted Ht) as [Hle Hge].
  rewrite <- (Permutation_length (filter_Permutation (λ x, x ≤ t) _ _ Hperm)).
  rewrite <- (Permutation_length (filter_Permutation (λ x, t ≤ x) _ _ Hperm)).
  lia.
Qed.

End Driver.

Lemma generated_weights_are_valid_witness :
  ∃ w g', make_weights 3 10 (0, 1) = Returns (w, g') ∧
          length w = Z.to_nat (3 + 1) ∧ item w 0 = 0 ∧
          (∀ p, 1 ≤ p ≤ 3 → 1 ≤ item w p ≤ 10) ∧
          nonneg_weights 3 w.
Proof.
  apply (generated_weights_are_valid 3 10 (0, 1)); [|lia|lia].
  intros a b g Hab. simpl. lia.
Defined.

Lemma make_weights_empty_range_witness : make_weights 3 0 (0, 1) = Raises value_error.
Proof. apply (make_weights_empty_range 3 0 (0, 1)); lia. Defined.

Lemma no_repetitions_raise_witness : get_time_k_server 3 2 0 (0, 1) = Raises index_error.
Proof. apply (no_repetitions_raise 3 2 0 (0, 1)). lia. Defined.

Lemma timing_without_servers_raises_witness :
  get_time_k_server 3 0 4 (0, 1) = Raises index_error.
Proof. apply (timing_without_servers_raises 3 0 4 (0, 1)); lia. Defined.

Lemma get_time_returns_median_witness :
  ∃ w g1 times g2 t,
    make_weights 3 10 (0, 1) = Returns (w, g1) ∧
    timing_loop 3 2 9 w g1 = Returns (w, times, g2) ∧
    get_time_k_server 3 2 9 (0, 1) = Returns (t, g2) ∧
    Z.of_nat (length times) = 9 ∧ t ∈ times ∧
    9 `div` 2 + 1 ≤ Z.of_nat (length (filter (λ x, x ≤ t) times)) ∧
    9 - 9 `div` 2 ≤ Z.of_nat (length (filter (λ x, t ≤ x) times)).
Proof. apply (get_time_returns_median 3 2 9 (0, 1)); lia. Defined.
